(** * Request-parameter marshaling of the JDCloud SDK core

    A shallow embedding of [core/ParameterBuilder.go]: the two
    [ParameterBuilder] strategies ([WithBodyBuilder], [WithoutBodyBuilder]),
    path-parameter substitution, query flattening and URL encoding.

    Go strings are byte sequences and are modelled by [string] (a sequence
    of 8-bit [ascii]).  The pieces of Go's standard library that the file
    calls ([strings], [regexp], [fmt], [net/url]) are modelled in modules of
    the same name, restricted to the calls the source makes. *)

From Stdlib Require Import String Ascii List Bool Arith Lia Permutation.
From Stdlib Require Import Numbers.DecimalString.
Import ListNotations.

Local Open Scope list_scope.
Local Open Scope string_scope.

Set Warnings "-register-all".
Set Default Proof Using "Type".

(** ** Bytes *)

Definition byte_in (lo hi c : ascii) : bool :=
  Nat.leb (nat_of_ascii lo) (nat_of_ascii c) && Nat.leb (nat_of_ascii c) (nat_of_ascii hi).

Definition is_lower (c : ascii) : bool := byte_in "a" "z" c.
Definition is_upper (c : ascii) : bool := byte_in "A" "Z" c.
Definition is_digit (c : ascii) : bool := byte_in "0" "9" c.
Definition is_alnum (c : ascii) : bool := is_lower c || is_upper c || is_digit c.

(** [c] is one of the bytes of [set]. *)
Fixpoint byte_of (set : string) (c : ascii) : bool :=
  match set with
  | EmptyString => false
  | String a set' => (a =? c)%char || byte_of set' c
  end.

Fixpoint all_bytes (p : ascii -> bool) (s : string) : bool :=
  match s with
  | EmptyString => true
  | String c s' => p c && all_bytes p s'
  end.

(** [s[n:]] *)
Fixpoint skip (n : nat) (s : string) : string :=
  match n, s with
  | O, _ => s
  | S n', String _ s' => skip n' s'
  | S _, EmptyString => EmptyString
  end.

(** The double-quote byte. *)
Definition dquote : ascii := ascii_of_nat 34.

(** Entries in increasing order of their keys, compared bytewise (Go's
    [sort.Strings] on the keys of a map). *)
Fixpoint insertByKey {A : Type} (e : string * A) (l : list (string * A)) : list (string * A) :=
  match l with
  | [] => [e]
  | x :: l' => if String.leb (fst e) (fst x) then e :: l else x :: insertByKey e l'
  end.

Definition sortByKey {A : Type} (l : list (string * A)) : list (string * A) :=
  fold_right insertByKey [] l.

(** ** Package [strings] *)

Module strings.

Definition HasPrefix (s prefix : string) : bool := String.prefix prefix s.

Fixpoint HasSuffix (s suffix : string) : bool :=
  (s =? suffix) ||
  match s with
  | EmptyString => false
  | String _ s' => HasSuffix s' suffix
  end.

Fixpoint Contains (s substr : string) : bool :=
  HasPrefix s substr ||
  match s with
  | EmptyString => false
  | String _ s' => Contains s' substr
  end.

(** [Index] and [LastIndex] return [None] where Go returns [-1]. *)
Fixpoint Index (s substr : string) : option nat :=
  if HasPrefix s substr then Some 0
  else match s with
       | EmptyString => None
       | String _ s' => option_map S (Index s' substr)
       end.

Fixpoint LastIndex (s substr : string) : option nat :=
  match s with
  | EmptyString => if HasPrefix s substr then Some 0 else None
  | String _ s' =>
      match LastIndex s' substr with
      | Some i => Some (S i)
      | None => if HasPrefix s substr then Some 0 else None
      end
  end.

(** [Count] of a non-empty, one-byte separator. *)
Fixpoint CountByte (s : string) (c : ascii) : nat :=
  match s with
  | EmptyString => 0
  | String a s' => (if (a =? c)%char then 1 else 0) + CountByte s' c
  end.

(** [Cut(s, sep)] is [(before, after, found)]; [(s, EmptyString, false)] when [sep]
    does not occur. *)
Fixpoint Cut (s sep : string) : string * string * bool :=
  if HasPrefix s sep then (EmptyString, skip (String.length sep) s, true)
  else match s with
       | EmptyString => (EmptyString, EmptyString, false)
       | String c s' =>
           let '(before, after, found) := Cut s' sep in
           (String c before, after, found)
       end.

(** [TrimLeft(s, cutset)] for a cutset of ASCII bytes. *)
Fixpoint TrimLeft (s cutset : string) : string :=
  match s with
  | EmptyString => EmptyString
  | String c s' => if byte_of cutset c then TrimLeft s' cutset else s
  end.

(** [TrimRight(s, cutset)] for a cutset of ASCII bytes. *)
Fixpoint TrimRight (s cutset : string) : string :=
  match s with
  | EmptyString => EmptyString
  | String c s' =>
      match TrimRight s' cutset with
      | EmptyString => if byte_of cutset c then EmptyString else String c EmptyString
      | r => String c r
      end
  end.

Definition Join (elems : list string) (sep : string) : string :=
  String.concat sep elems.

(** [Replace(s, old, new, n)] with [n = -1] and a non-empty [old] (a match of
    the pattern has at least three bytes): every non-overlapping occurrence,
    left to right.  [pending] counts the bytes of an occurrence
    already replaced that are still to be passed over. *)
Fixpoint replace_from (pending : nat) (s old new : string) : string :=
  match s with
  | EmptyString => EmptyString
  | String c s' =>
      match pending with
      | S p => replace_from p s' old new
      | O =>
          if HasPrefix s old
          then new ++ replace_from (String.length old - 1) s' old new
          else String c (replace_from 0 s' old new)
      end
  end.

Definition Replace (s old new : string) : string := replace_from 0 s old new.

(** [ToLower] on ASCII letters (the only bytes of a URL scheme). *)
Fixpoint ToLower (s : string) : string :=
  match s with
  | EmptyString => EmptyString
  | String c s' =>
      String (if is_upper c then ascii_of_nat (nat_of_ascii c + 32) else c) (ToLower s')
  end.

End strings.

(** ** Package [regexp]: the pattern [{[a-zA-Z0-9-_]+}] *)

Module regexp.

(** The class [[a-zA-Z0-9-_]]: letters, digits, [-] and [_]. *)
Definition pathParamByte (c : ascii) : bool :=
  is_alnum c || (c =? "-")%char || (c =? "_")%char.

(** The longest run of class bytes at the start of [s], and the rest. *)
Fixpoint span (s : string) : string * string :=
  match s with
  | EmptyString => (EmptyString, EmptyString)
  | String c s' =>
      if pathParamByte c
      then let '(w, rest) := span s' in (String c w, rest)
      else (EmptyString, s)
  end.

(** A match of the pattern starting at the first byte of [s]. *)
Definition matchAt (s : string) : option string :=
  match s with
  | EmptyString => None
  | String c s' =>
      if (c =? "{")%char
      then let '(w, rest) := span s' in
           if negb (w =? EmptyString) && strings.HasPrefix rest "}"
           then Some ("{" ++ w ++ "}")
           else None
      else None
  end.

(** [FindAllString(s, -1)]: successive non-overlapping matches, leftmost
    first.  [pending] counts the bytes of the last match still to be passed
    over. *)
Fixpoint find_from (pending : nat) (s : string) : list string :=
  match s with
  | EmptyString => []
  | String _ s' =>
      match pending with
      | S p => find_from p s'
      | O =>
          match matchAt s with
          | Some m => m :: find_from (String.length m - 1) s'
          | None => find_from 0 s'
          end
      end
  end.

Definition FindAllString (s : string) : list string := find_from 0 s.

End regexp.

(** ** Package [net/url]

    [Parse], [URL.EscapedPath], [URL.Query] and [Values.Encode] as of
    Go 1.20, on bytes.  Errors are kept as values; their message text is
    not rendered. *)

Module url.

Inductive encoding :=
| encodePath
| encodePathSegment
| encodeHost
| encodeZone
| encodeUserPassword
| encodeQueryComponent
| encodeFragment.

Definition is_host_mode (mode : encoding) : bool :=
  match mode with
  | encodeHost | encodeZone => true
  | _ => false
  end.

(** What [Parse] can report. *)
Inductive parseError :=
| EscapeError (s : string)          (* invalid URL escape *)
| InvalidHostError (s : string)     (* invalid character in host name *)
| ControlCharacter                  (* invalid control character in URL *)
| MissingScheme                     (* missing protocol scheme *)
| ColonInFirstSegment               (* first path segment in URL cannot contain colon *)
| MissingBracket                    (* missing ']' in host *)
| InvalidPort (colonPort : string)  (* invalid port after host *)
| InvalidUserinfo.                  (* net/url: invalid userinfo *)

Record Error := { Op : string; URL_ : string; Err : parseError }.

Record Userinfo := { username : string; password : string; passwordSet : bool }.

Record URL := {
  Scheme : string;
  Opaque : string;
  User : option Userinfo;
  Host : string;
  Path : string;
  RawPath : string;
  OmitHost : bool;
  ForceQuery : bool;
  RawQuery : string;
  Fragment : string;
  RawFragment : string
}.

Definition emptyURL : URL :=
  {| Scheme := EmptyString; Opaque := EmptyString; User := None; Host := EmptyString; Path := EmptyString;
     RawPath := EmptyString; OmitHost := false; ForceQuery := false; RawQuery := EmptyString;
     Fragment := EmptyString; RawFragment := EmptyString |}.

(** Values maps a key to its values, in the order they were added. *)
Definition Values := list (string * list string).

Definition ishex (c : ascii) : bool :=
  is_digit c || byte_in "a" "f" c || byte_in "A" "F" c.

Definition unhex (c : ascii) : nat :=
  if is_digit c then nat_of_ascii c - nat_of_ascii "0"
  else if byte_in "a" "f" c then nat_of_ascii c - nat_of_ascii "a" + 10
  else if byte_in "A" "F" c then nat_of_ascii c - nat_of_ascii "A" + 10
  else 0.

Definition upperhex (n : nat) : ascii :=
  match String.get n "0123456789ABCDEF" with
  | Some c => c
  | None => "0"%char
  end.

Definition shouldEscape (c : ascii) (mode : encoding) : bool :=
  if is_alnum c then false
  else if is_host_mode mode && byte_of "!$&'()*+,;=:[]<>" c then false
  else if is_host_mode mode && (c =? dquote)%char then false
  else if byte_of "-_.~" c then false
  else if byte_of "$&+,/:;=?@" c then
    match mode with
    | encodePath => (c =? "?")%char
    | encodePathSegment => byte_of "/;,?" c
    | encodeUserPassword => byte_of "@/?:" c
    | encodeQueryComponent => true
    | encodeFragment => false
    | encodeHost | encodeZone => true
    end
  else match mode with
       | encodeFragment => negb (byte_of "!()*" c)
       | _ => true
       end.

(** [s[:n]] *)
Fixpoint take (n : nat) (s : string) : string :=
  match n, s with
  | S n', String c s' => String c (take n' s')
  | _, _ => EmptyString
  end.

(** [unescape]: the checking pass and the rewriting pass of the source in
    one traversal; the error is that of the first offending byte. *)
Fixpoint unescape (s : string) (mode : encoding) : string + parseError :=
  match s with
  | EmptyString => inl EmptyString
  | String c s1 =>
      if (c =? "%")%char then
        match s1 with
        | String h1 (String h2 rest) =>
            if negb (ishex h1 && ishex h2) then inr (EscapeError (take 3 s))
            else
              let esc := take 3 s in
              let v := ascii_of_nat (unhex h1 * 16 + unhex h2) in
              if match mode with
                 | encodeHost => Nat.ltb (unhex h1) 8 && negb (esc =? "%25")
                 | encodeZone =>
                     negb (esc =? "%25") && negb (v =? " ")%char
                     && shouldEscape v encodeHost
                 | _ => false
                 end
              then inr (EscapeError esc)
              else match unescape rest mode with
                   | inl t => inl (String v t)
                   | inr e => inr e
                   end
        | _ => inr (EscapeError (take 3 s))
        end
      else if is_host_mode mode && Nat.ltb (nat_of_ascii c) 128 && shouldEscape c encodeHost
      then inr (InvalidHostError (String c EmptyString))
      else match unescape s1 mode with
           | inl t =>
               inl (String (match mode with
                            | encodeQueryComponent => if (c =? "+")%char then " "%char else c
                            | _ => c
                            end) t)
           | inr e => inr e
           end
  end.

Fixpoint escape (s : string) (mode : encoding) : string :=
  match s with
  | EmptyString => EmptyString
  | String c s' =>
      match mode with
      | encodeQueryComponent =>
          if (c =? " ")%char then String "+" (escape s' mode)
          else if shouldEscape c mode
          then String "%" (String (upperhex (nat_of_ascii c / 16))
                 (String (upperhex (nat_of_ascii c mod 16)) (escape s' mode)))
          else String c (escape s' mode)
      | _ =>
          if shouldEscape c mode
          then String "%" (String (upperhex (nat_of_ascii c / 16))
                 (String (upperhex (nat_of_ascii c mod 16)) (escape s' mode)))
          else String c (escape s' mode)
      end
  end.

Definition QueryUnescape (s : string) : string + parseError :=
  unescape s encodeQueryComponent.

Definition QueryEscape (s : string) : string := escape s encodeQueryComponent.

Fixpoint validEncoded (s : string) (mode : encoding) : bool :=
  match s with
  | EmptyString => true
  | String c s' =>
      (byte_of "!$&'()*+,;=:@[]%" c || negb (shouldEscape c mode))
      && validEncoded s' mode
  end.

Definition setPath (u : URL) (p : string) : URL + parseError :=
  match unescape p encodePath with
  | inr e => inr e
  | inl path =>
      inl {| Scheme := Scheme u; Opaque := Opaque u; User := User u; Host := Host u;
             Path := path;
             RawPath := if p =? escape path encodePath then EmptyString else p;
             OmitHost := OmitHost u; ForceQuery := ForceQuery u;
             RawQuery := RawQuery u; Fragment := Fragment u;
             RawFragment := RawFragment u |}
  end.

Definition setFragment (u : URL) (f : string) : URL + parseError :=
  match unescape f encodeFragment with
  | inr e => inr e
  | inl frag =>
      inl {| Scheme := Scheme u; Opaque := Opaque u; User := User u; Host := Host u;
             Path := Path u; RawPath := RawPath u;
             OmitHost := OmitHost u; ForceQuery := ForceQuery u;
             RawQuery := RawQuery u; Fragment := frag;
             RawFragment := if f =? escape frag encodeFragment then EmptyString else f |}
  end.

Definition EscapedPath (u : URL) : string :=
  if negb (RawPath u =? EmptyString) && validEncoded (RawPath u) encodePath
     && match unescape (RawPath u) encodePath with
        | inl p => p =? Path u
        | inr _ => false
        end
  then RawPath u
  else if Path u =? "*" then "*"
  else escape (Path u) encodePath.

(** [getScheme]: where the scheme ends, if there is one. *)
Inductive schemeScan := NoScheme | SchemeEnds (i : nat) | SchemeMissing.

Fixpoint scanScheme (i : nat) (s : string) : schemeScan :=
  match s with
  | EmptyString => NoScheme
  | String c s' =>
      if is_lower c || is_upper c then scanScheme (S i) s'
      else if is_digit c || byte_of "+-." c then
        match i with
        | O => NoScheme
        | _ => scanScheme (S i) s'
        end
      else if (c =? ":")%char then
        match i with
        | O => SchemeMissing
        | _ => SchemeEnds i
        end
      else NoScheme
  end.

Definition getScheme (rawURL : string) : (string * string) + parseError :=
  match scanScheme 0 rawURL with
  | NoScheme => inl (EmptyString, rawURL)
  | SchemeEnds i => inl (take i rawURL, skip (S i) rawURL)
  | SchemeMissing => inr MissingScheme
  end.

Definition stringContainsCTLByte (s : string) : bool :=
  negb (all_bytes (fun c => negb (Nat.ltb (nat_of_ascii c) 32 || Nat.eqb (nat_of_ascii c) 127)) s).

Definition validOptionalPort (port : string) : bool :=
  match port with
  | EmptyString => true
  | String c digits => (c =? ":")%char && all_bytes is_digit digits
  end.

Definition validUserinfo (s : string) : bool :=
  all_bytes (fun c => is_alnum c || byte_of "-._:~!$&'()*+,;=%@" c) s.

Definition parseHost (host : string) : string + parseError :=
  let plain := unescape host encodeHost in
  if strings.HasPrefix host "[" then
    match strings.LastIndex host "]" with
    | None => inr MissingBracket
    | Some i =>
        let colonPort := skip (S i) host in
        if negb (validOptionalPort colonPort) then inr (InvalidPort colonPort)
        else
          match strings.Index (take i host) "%25" with
          | Some zone =>
              match unescape (take zone host) encodeHost with
              | inr e => inr e
              | inl host1 =>
                  match unescape (skip zone (take i host)) encodeZone with
                  | inr e => inr e
                  | inl host2 =>
                      match unescape (skip i host) encodeHost with
                      | inr e => inr e
                      | inl host3 => inl (host1 ++ host2 ++ host3)
                      end
                  end
              end
          | None => plain
          end
    end
  else
    match strings.LastIndex host ":" with
    | Some i =>
        let colonPort := skip i host in
        if negb (validOptionalPort colonPort) then inr (InvalidPort colonPort)
        else plain
    | None => plain
    end.

Definition parseAuthority (authority : string) : (option Userinfo * string) + parseError :=
  match strings.LastIndex authority "@" with
  | None =>
      match parseHost authority with
      | inr e => inr e
      | inl host => inl (None, host)
      end
  | Some i =>
      match parseHost (skip (S i) authority) with
      | inr e => inr e
      | inl host =>
          let userinfo := take i authority in
          if negb (validUserinfo userinfo) then inr InvalidUserinfo
          else if negb (strings.Contains userinfo ":") then
            match unescape userinfo encodeUserPassword with
            | inr e => inr e
            | inl name =>
                inl (Some {| username := name; password := EmptyString; passwordSet := false |}, host)
            end
          else
            let '(name, pass, _) := strings.Cut userinfo ":" in
            match unescape name encodeUserPassword with
            | inr e => inr e
            | inl name' =>
                match unescape pass encodeUserPassword with
                | inr e => inr e
                | inl pass' =>
                    inl (Some {| username := name'; password := pass'; passwordSet := true |},
                         host)
                end
            end
      end
  end.

(** [s[:len(s)-1]] *)
Fixpoint dropLast (s : string) : string :=
  match s with
  | EmptyString => EmptyString
  | String c EmptyString => EmptyString
  | String c s' => String c (dropLast s')
  end.

(** [parse(rawURL, false)] *)
Definition parse (rawURL : string) : URL + parseError :=
  if stringContainsCTLByte rawURL then inr ControlCharacter
  else if rawURL =? "*" then
    inl {| Scheme := EmptyString; Opaque := EmptyString; User := None; Host := EmptyString; Path := "*";
           RawPath := EmptyString; OmitHost := false; ForceQuery := false; RawQuery := EmptyString;
           Fragment := EmptyString; RawFragment := EmptyString |}
  else
    match getScheme rawURL with
    | inr e => inr e
    | inl (scheme0, rest0) =>
        let scheme := strings.ToLower scheme0 in
        let force := strings.HasSuffix rest0 "?" && Nat.eqb (strings.CountByte rest0 "?") 1 in
        let '(rest, rawQuery) :=
          if force then (dropLast rest0, EmptyString)
          else let '(before, after, _) := strings.Cut rest0 "?" in (before, after) in
        let u0 :=
          {| Scheme := scheme; Opaque := EmptyString; User := None; Host := EmptyString; Path := EmptyString;
             RawPath := EmptyString; OmitHost := false; ForceQuery := force; RawQuery := rawQuery;
             Fragment := EmptyString; RawFragment := EmptyString |} in
        if negb (strings.HasPrefix rest "/") && negb (scheme =? EmptyString) then
          inl {| Scheme := scheme; Opaque := rest; User := None; Host := EmptyString; Path := EmptyString;
                 RawPath := EmptyString; OmitHost := false; ForceQuery := force;
                 RawQuery := rawQuery; Fragment := EmptyString; RawFragment := EmptyString |}
        else if negb (strings.HasPrefix rest "/")
                && (let '(segment, _, _) := strings.Cut rest "/" in
                    strings.Contains segment ":")
        then inr ColonInFirstSegment
        else if (negb (scheme =? EmptyString) || negb (strings.HasPrefix rest "///"))
                && strings.HasPrefix rest "//"
        then
          let authority0 := skip 2 rest in
          let '(authority, rest') :=
            match strings.Index authority0 "/" with
            | Some i => (take i authority0, skip i authority0)
            | None => (authority0, EmptyString)
            end in
          match parseAuthority authority with
          | inr e => inr e
          | inl (user, host) =>
              setPath
                {| Scheme := scheme; Opaque := EmptyString; User := user; Host := host; Path := EmptyString;
                   RawPath := EmptyString; OmitHost := false; ForceQuery := force;
                   RawQuery := rawQuery; Fragment := EmptyString; RawFragment := EmptyString |}
                rest'
          end
        else if negb (scheme =? EmptyString) && strings.HasPrefix rest "/" then
          setPath
            {| Scheme := scheme; Opaque := EmptyString; User := None; Host := EmptyString; Path := EmptyString;
               RawPath := EmptyString; OmitHost := true; ForceQuery := force;
               RawQuery := rawQuery; Fragment := EmptyString; RawFragment := EmptyString |}
            rest
        else setPath u0 rest
    end.

Definition Parse (rawURL : string) : URL + Error :=
  let '(u, frag, _) := strings.Cut rawURL "#" in
  match parse u with
  | inr e => inr {| Op := "parse"; URL_ := u; Err := e |}
  | inl url =>
      if frag =? EmptyString then inl url
      else match setFragment url frag with
           | inr e => inr {| Op := "parse"; URL_ := rawURL; Err := e |}
           | inl url' => inl url'
           end
  end.

(** The pieces of [s] between occurrences of the byte [sep]. *)
Fixpoint splitByte (sep : ascii) (s : string) : list string :=
  match s with
  | EmptyString => [EmptyString]
  | String c s' =>
      if (c =? sep)%char then EmptyString :: splitByte sep s'
      else match splitByte sep s' with
           | piece :: pieces => String c piece :: pieces
           | [] => [String c EmptyString]
           end
  end.

(** [m[key] = append(m[key], value)] *)
Fixpoint Add (m : Values) (key value : string) : Values :=
  match m with
  | [] => [(key, [value])]
  | (k, vs) :: m' =>
      if k =? key then (k, (vs ++ [value])%list) :: m'
      else (k, vs) :: Add m' key value
  end.

(** One turn of the loop of [parseQuery]; a pair that does not parse is
    skipped (the error is dropped by [URL.Query]). *)
Definition parseQueryPair (m : Values) (pair : string) : Values :=
  if strings.Contains pair ";" then m
  else if pair =? EmptyString then m
  else
    let '(key, value, _) := strings.Cut pair "=" in
    match QueryUnescape key with
    | inr _ => m
    | inl key' =>
        match QueryUnescape value with
        | inr _ => m
        | inl value' => Add m key' value'
        end
    end.

Definition ParseQuery (query : string) : Values :=
  fold_left parseQueryPair (splitByte "&" query) [].

Definition Query (u : URL) : Values := ParseQuery (RawQuery u).

(** [Values.Encode]: keys in sorted order, the values of a key in the order
    they were added. *)
Definition Encode (v : Values) : string :=
  strings.Join
    (flat_map (fun kv => map (fun x => QueryEscape (fst kv) ++ "=" ++ QueryEscape x) (snd kv))
              (sortByKey v))
    "&".

End url.

(** ** Decoded JSON

    What [json.Unmarshal] stores in an [interface{}]: [nil], [bool],
    [float64], [string], [[]interface{}] or [map[string]interface{}].  A map
    is the list of its entries in the order in which [range] visits them:
    Go leaves that order open, so a statement about a map is made for every
    order of its entries.  [float64] is a parameter, with the text
    [strconv] prints for it. *)

Inductive value (float64 : Type) : Type :=
| VNil
| VBool (b : bool)
| VFloat64 (f : float64)
| VString (s : string)
| VSlice (e : list (value float64))
| VMap (m : list (string * value float64)).

Arguments VNil {float64}.
Arguments VBool {float64} b.
Arguments VFloat64 {float64} f.
Arguments VString {float64} s.
Arguments VSlice {float64} e.
Arguments VMap {float64} m.

(** [m[key]]: the value and whether the key is present. *)
Fixpoint lookup {A : Type} (key : string) (m : list (string * A)) : option A :=
  match m with
  | [] => None
  | (k, v) :: m' => if k =? key then Some v else lookup key m'
  end.

(** ** Package [fmt]: the verbs [%v], [%s] and [%d] *)

Module fmt.

Inductive verb := verb_v | verb_s.

(** [%d] of a non-negative [int] *)
Definition fmtInteger (n : nat) : string := NilEmpty.string_of_uint (Nat.to_uint n).

Definition fmtBoolean (b : bool) : string := if b then "true" else "false".

(** [badVerb]: [%!verb(type=value)] *)
Definition badVerb (typ shown : string) : string := "%!s(" ++ typ ++ "=" ++ shown ++ ")".

Section Printing.

Context {float64 : Type} (formatFloat : float64 -> string).

(** [printValue] below the top level: elements and map values have
    interface type, so a [nil] among them prints as [<nil>] under either
    verb; map entries are printed in sorted key order (Go 1.12 and later). *)
Fixpoint printValue (vb : verb) (v : value float64) : string :=
  match v with
  | VNil => "<nil>"
  | VBool b =>
      match vb with
      | verb_v => fmtBoolean b
      | verb_s => badVerb "bool" (fmtBoolean b)
      end
  | VFloat64 f =>
      match vb with
      | verb_v => formatFloat f
      | verb_s => badVerb "float64" (formatFloat f)
      end
  | VString s => s
  | VSlice e =>
      "[" ++ strings.Join
               ((fix elems (e : list (value float64)) : list string :=
                   match e with
                   | [] => []
                   | n :: e' => printValue vb n :: elems e'
                   end) e) " " ++ "]"
  | VMap m =>
      "map[" ++ strings.Join
                  (map (fun kv => fst kv ++ ":" ++ snd kv)
                     (sortByKey
                        ((fix entries (m : list (string * value float64)) : list (string * string) :=
                            match m with
                            | [] => []
                            | (k, x) :: m' => (k, printValue vb x) :: entries m'
                            end) m))) " " ++ "]"
  end.

(** [printArg]: a [nil] argument is [<nil>] under [%v] and a bad verb
    under [%s]. *)
Definition printArg (vb : verb) (v : value float64) : string :=
  match v, vb with
  | VNil, verb_v => "<nil>"
  | VNil, verb_s => "%!s(<nil>)"
  | _, _ => printValue vb v
  end.

End Printing.

End fmt.

(** ** Package [core]: what [ParameterBuilder.go] takes from its other files *)

(** Modelled from the spec: the method constants [MethodGet], [MethodDelete]
    and [MethodHead] are declared in another file of the package; the spec
    names the bodyless methods GET, DELETE and HEAD. *)
Definition MethodGet : string := "GET".
Definition MethodDelete : string := "DELETE".
Definition MethodHead : string := "HEAD".

(** Modelled from the spec: the severities of the logging sink, declared
    with the [Logger] interface in another file; the spec has info and
    error. *)
Inductive logLevel := LogError | LogInfo.

(** Modelled from the spec: [includes] is a helper of another file; the spec
    reads it as membership of a field name in the reserved set. *)
Fixpoint includes (fields : list string) (field : string) : bool :=
  match fields with
  | [] => false
  | v :: fields' => if v =? field then true else includes fields' field
  end.

(** Modelled from the spec: [EscapePath] is a helper of another file; the
    spec has it percent-escape every byte of the path except the unreserved
    ones, and keep [/] when it is not asked to encode the separator. *)
Definition noEscape (c : ascii) : bool := is_alnum c || byte_of "-._~" c.

Fixpoint EscapePath (path : string) (encodeSep : bool) : string :=
  match path with
  | EmptyString => EmptyString
  | String c path' =>
      if noEscape c || ((c =? "/")%char && negb encodeSep)
      then String c (EscapePath path' encodeSep)
      else String "%" (String (url.upperhex (nat_of_ascii c / 16))
             (String (url.upperhex (nat_of_ascii c mod 16)) (EscapePath path' encodeSep)))
  end.

(** Go's [append(l, x)] *)
Definition append {A : Type} (l : list A) (x : A) : list A := (l ++ [x])%list.

(** Go's [error] values that reach the caller. *)
Inductive error :=
| errorString (s : string)   (* errors.New(s) *)
| jsonError (msg : string)   (* reported by encoding/json *)
| urlError (e : url.Error).  (* reported by net/url *)

(** An argument of [Logger.Log]: a string, or the text [err.Error()]. *)
Inductive logArg :=
| Text (s : string)
| ErrorText (e : error).

Definition logEntry : Type := logLevel * list logArg.

(** ** [ParameterBuilder.go] *)

Section ParameterBuilder.

Context {float64 : Type}.

(** [strconv]'s shortest rendering of a [float64]: what [%v] prints. *)
Variable formatFloat : float64 -> string.

(** The field names of [JDCloudRequest], collected by [init]; the type is
    declared in another file. *)
Variable baseRequestFields : list string.

Local Abbreviation Map := (list (string * value float64)) (only parsing).

(** [json.Unmarshal(paramJson, &paramMap)], together with the order [range]
    will give the entries of each decoded map, and [json.Marshal]. *)
Variable json_Unmarshal : string -> Map + error.
Variable json_Marshal : Map -> string.

Variable Logger : Type.

Definition Sprint_v : value float64 -> string := fmt.printArg formatFloat fmt.verb_v.
Definition Sprint_s : value float64 -> string := fmt.printArg formatFloat fmt.verb_s.

Definition shouldIgnoreField (url field : string) : bool :=
  let flag := "{" ++ field ++ "}" in
  if strings.Contains url flag then true
  else if includes baseRequestFields field then true
  else false.

(** The loop of [replaceUrlWithPathParam] over the matches found in the
    template. *)
Fixpoint replaceMatches (matches : list string) (url : string) (paramMap : Map)
  : string * option error :=
  match matches with
  | [] => (url, None)
  | match_ :: matches' =>
      let field := strings.TrimLeft match_ "{" in
      let field := strings.TrimRight field "}" in
      match lookup field paramMap with
      | None => (EmptyString, Some (errorString ("Can not find path parameter: " ++ field)))
      | Some value =>
          let valueStr := Sprint_v value in
          replaceMatches matches' (strings.Replace url match_ valueStr) paramMap
      end
  end.

Definition replaceUrlWithPathParam (url : string) (paramMap : Map)
  : string * option error :=
  replaceMatches (regexp.FindAllString url) url paramMap.

(** The body of the loop of [accessMap] for one entry [k], [v] that is not
    ignored: the type switch on [v], with the loop over the elements of a
    slice and, for an element that is a map, the recursive call. *)
Fixpoint accessValue (url k : string) (v : value float64) (prefix : string)
    (resultList : list string) {struct v} : list string :=
  match v with
  | VSlice e =>
      (fix elements (e : list (value float64)) (i : nat) (resultList : list string)
           {struct e} : list string :=
         match e with
         | [] => resultList
         | n :: e' =>
             elements e' (S i)
               match n with
               | VMap f =>
                   let subPrefix := k ++ "." ++ fmt.fmtInteger (i + 1) ++ "." in
                   (fix fields (f : Map) (resultList : list string) {struct f}
                      : list string :=
                      match f with
                      | [] => resultList
                      | (k', v') :: f' =>
                          fields f'
                            (if shouldIgnoreField url k' then resultList
                             else accessValue url k' v' subPrefix resultList)
                      end) f resultList
               | VNil => resultList
               | _ =>
                   append resultList
                     (prefix ++ k ++ "." ++ fmt.fmtInteger (i + 1) ++ "=" ++ Sprint_s n)
               end
         end) e 0 resultList
  | VNil => resultList
  | _ => append resultList (prefix ++ k ++ "=" ++ Sprint_v v)
  end.

Fixpoint accessMap (paramMap : Map) (url prefix : string) (resultList : list string)
  : list string :=
  match paramMap with
  | [] => resultList
  | (k, v) :: paramMap' =>
      accessMap paramMap' url prefix
        (if shouldIgnoreField url k then resultList
         else accessValue url k v prefix resultList)
  end.

(** The loop of [accessMap] over the elements [e] of the slice at key [k],
    from index [i]. *)
Fixpoint accessElements (url k prefix : string) (e : list (value float64)) (i : nat)
    (resultList : list string) : list string :=
  match e with
  | [] => resultList
  | n :: e' =>
      accessElements url k prefix e' (S i)
        match n with
        | VMap f =>
            let subPrefix := k ++ "." ++ fmt.fmtInteger (i + 1) ++ "." in
            accessMap f url subPrefix resultList
        | VNil => resultList
        | _ =>
            append resultList
              (prefix ++ k ++ "." ++ fmt.fmtInteger (i + 1) ++ "=" ++ Sprint_s n)
        end
  end.

Definition buildQueryParams (paramMap : Map) (url : string) : string :=
  let resultList := accessMap paramMap url EmptyString [] in
  let result := strings.Join resultList "&" in
  result.

Definition withRawPath (u : url.URL) (rawPath : string) : url.URL :=
  {| url.Scheme := url.Scheme u; url.Opaque := url.Opaque u; url.User := url.User u;
     url.Host := url.Host u; url.Path := url.Path u; url.RawPath := rawPath;
     url.OmitHost := url.OmitHost u; url.ForceQuery := url.ForceQuery u;
     url.RawQuery := url.RawQuery u; url.Fragment := url.Fragment u;
     url.RawFragment := url.RawFragment u |}.

Definition encodeUrl (requestUrl : string) : string * option error :=
  match url.Parse requestUrl with
  | inr err => (EmptyString, Some (urlError err))
  | inl urlObj =>
      let urlObj := withRawPath urlObj (EscapePath (url.Path urlObj) false) in
      let uri := url.EscapedPath urlObj in
      let queryParam := url.Encode (url.Query urlObj) in
      if negb (queryParam =? EmptyString) then (uri ++ "?" ++ queryParam, None)
      else (uri, None)
  end.

(** The two builders; a method returns its results and the calls it made
    to its logger, in order. *)
Record WithBodyBuilder := { WithBody_Logger : Logger }.
Record WithoutBodyBuilder := { WithoutBody_Logger : Logger }.

Definition WithBodyBuilder_BuildURL (b : WithBodyBuilder) (url : string) (paramJson : string)
  : (string * option error) * list logEntry :=
  match json_Unmarshal paramJson with
  | inr err => ((EmptyString, Some err), [(LogError, [ErrorText err])])
  | inl paramMap =>
      match replaceUrlWithPathParam url paramMap with
      | (_, Some err) => ((EmptyString, Some err), [(LogError, [ErrorText err])])
      | (replacedUrl, None) =>
          match encodeUrl replacedUrl with
          | (_, Some err) => ((EmptyString, Some err), [])
          | (encodedUrl, None) =>
              ((encodedUrl, None), [(LogInfo, [Text ("URL=" ++ encodedUrl)])])
          end
      end
  end.

(** The map [BuildBody] hands to [json.Marshal]: the entries whose key is
    not a base request field. *)
Definition removeBaseRequestFields (paramMap : Map) : Map :=
  filter (fun kv => negb (includes baseRequestFields (fst kv))) paramMap.

Definition WithBodyBuilder_BuildBody (b : WithBodyBuilder) (paramJson : string)
  : (string * option error) * list logEntry :=
  match json_Unmarshal paramJson with
  | inr err => ((EmptyString, Some err), [(LogError, [ErrorText err])])
  | inl paramMap =>
      let paramMap := removeBaseRequestFields paramMap in
      let body := json_Marshal paramMap in
      ((body, None), [(LogInfo, [Text "Body="; Text body])])
  end.

Definition WithoutBodyBuilder_BuildURL (b : WithoutBodyBuilder) (url : string)
    (paramJson : string) : (string * option error) * list logEntry :=
  match json_Unmarshal paramJson with
  | inr err => ((EmptyString, Some err), [(LogError, [ErrorText err])])
  | inl paramMap =>
      match replaceUrlWithPathParam url paramMap with
      | (_, Some err) => ((EmptyString, Some err), [(LogError, [ErrorText err])])
      | (resultUrl, None) =>
          let queryParams := buildQueryParams paramMap url in
          let resultUrl :=
            if negb (queryParams =? EmptyString) then resultUrl ++ "?" ++ queryParams
            else resultUrl in
          match encodeUrl resultUrl with
          | (_, Some err) => ((EmptyString, Some err), [])
          | (encodedUrl, None) =>
              ((encodedUrl, None),
               [(LogInfo, [Text paramJson]); (LogInfo, [Text ("URL=" ++ encodedUrl)])])
          end
      end
  end.

Definition WithoutBodyBuilder_BuildBody (b : WithoutBodyBuilder) (paramJson : string)
  : (string * option error) * list logEntry :=
  ((EmptyString, None), []).

(** The interface [ParameterBuilder] and its two implementations. *)
Inductive ParameterBuilder :=
| withoutBody (b : WithoutBodyBuilder)
| withBody (b : WithBodyBuilder).

Definition BuildURL (pb : ParameterBuilder) (url paramJson : string)
  : (string * option error) * list logEntry :=
  match pb with
  | withoutBody b => WithoutBodyBuilder_BuildURL b url paramJson
  | withBody b => WithBodyBuilder_BuildURL b url paramJson
  end.

Definition BuildBody (pb : ParameterBuilder) (paramJson : string)
  : (string * option error) * list logEntry :=
  match pb with
  | withoutBody b => WithoutBodyBuilder_BuildBody b paramJson
  | withBody b => WithBodyBuilder_BuildBody b paramJson
  end.

Definition GetParameterBuilder (method : string) (logger : Logger) : ParameterBuilder :=
  if (method =? MethodGet) || (method =? MethodDelete) || (method =? MethodHead)
  then withoutBody {| WithoutBody_Logger := logger |}
  else withBody {| WithBody_Logger := logger |}.

End ParameterBuilder.

Arguments WithBodyBuilder_BuildURL {float64} formatFloat json_Unmarshal {Logger} b url paramJson.
Arguments WithBodyBuilder_BuildBody {float64} baseRequestFields json_Unmarshal json_Marshal
  {Logger} b paramJson.
Arguments WithoutBodyBuilder_BuildURL {float64} formatFloat baseRequestFields json_Unmarshal
  {Logger} b url paramJson.
Arguments WithoutBodyBuilder_BuildBody {Logger} b paramJson.
Arguments BuildURL {float64} formatFloat baseRequestFields json_Unmarshal {Logger} pb url paramJson.
Arguments BuildBody {float64} baseRequestFields json_Unmarshal json_Marshal {Logger} pb paramJson.
Arguments GetParameterBuilder {Logger} method logger.
Arguments withBody {Logger} b.
Arguments withoutBody {Logger} b.

(** ** Vocabulary of the statements *)

(** A placeholder: [{], a non-empty word of the class, [}]. *)
Definition placeholder (name : string) : string := "{" ++ name ++ "}".

Definition pathParamName (name : string) : Prop :=
  name <> EmptyString /\ all_bytes regexp.pathParamByte name = true.

(** No byte of [s] among its first [n] is an opening brace. *)
Fixpoint noOpenWithin (n : nat) (s : string) : Prop :=
  match n, s with
  | S n', String c s' => c <> "{"%char /\ noOpenWithin n' s'
  | _, _ => True
  end.

Definition missingPathParameter (field : string) : error :=
  errorString ("Can not find path parameter: " ++ field).

(** The byte [c] does not occur in [s]. *)
Definition noByte (c : ascii) (s : string) : bool :=
  all_bytes (fun x => negb (x =? c)%char) s.

(** The part of [parse] that follows the split at [?] gives the same path,
    or the same error, whatever the query is. *)
Definition sameButQuery (q : string) (r r' : url.URL + url.parseError) : Prop :=
  match r with
  | inl U => exists U', r' = inl U' /\ url.Path U' = url.Path U /\ url.RawQuery U' = q
  | inr e => r' = inr e
  end.

Section Vocabulary.

Context {float64 : Type}.
Variable formatFloat : float64 -> string.

(** Elements that are objects or null: the only ones whose treatment does
    not use the prefix accumulated so far. *)
Definition objectOrNil (n : value float64) : bool :=
  match n with
  | VMap _ | VNil => true
  | _ => false
  end.

(** How [%s] renders a scalar element of a slice: a string as it is, a
    number or a boolean as Go's bad-verb text around its [%v] form. *)
Definition stringVerbText (n : value float64) : string :=
  match n with
  | VFloat64 f => "%!s(float64=" ++ formatFloat f ++ ")"
  | VBool true => "%!s(bool=true)"
  | VBool false => "%!s(bool=false)"
  | VString s => s
  | _ => EmptyString
  end.

(** How [%v] renders a top-level scalar. *)
Definition valueVerbText (v : value float64) : string :=
  match v with
  | VFloat64 f => formatFloat f
  | VBool true => "true"
  | VBool false => "false"
  | VString s => s
  | _ => EmptyString
  end.

Definition scalar (v : value float64) : bool :=
  match v with
  | VFloat64 _ | VBool _ | VString _ => true
  | _ => false
  end.

(** The pairs of the scalars [e] of the slice at [k], from index [i]. *)
Fixpoint scalarPairs (prefix k : string) (e : list (value float64)) (i : nat) : list string :=
  match e with
  | [] => []
  | n :: e' =>
      (prefix ++ k ++ "." ++ fmt.fmtInteger (i + 1) ++ "=" ++ stringVerbText n)
        :: scalarPairs prefix k e' (S i)
  end.

End Vocabulary.

(** ** A run-time for closed examples

    A [float64] is given by the text that [strconv] prints for it, the
    reserved fields are those of a request envelope with a URL, a method, a
    header and a version, the decoder reads the documents of a table and
    rejects every other input, and the encoder is any function (here the
    [%v] text of the map). *)

Definition sampleFields : list string := ["URL"; "Method"; "Header"; "Version"].

(** JSON text, written with ['] for the double quote. *)
Fixpoint jsonText (s : string) : string :=
  match s with
  | EmptyString => EmptyString
  | String c s' => String (if (c =? "'")%char then dquote else c) (jsonText s')
  end.

Definition decodeTable (table : list (string * list (string * value string)))
    (paramJson : string) : list (string * value string) + error :=
  match lookup paramJson table with
  | Some paramMap => inl paramMap
  | None => inr (jsonError "unexpected input")
  end.

Definition printedFloat (f : string) : string := f.

Definition sampleMarshal (paramMap : list (string * value string)) : string :=
  fmt.printValue printedFloat fmt.verb_v (VMap paramMap).

Definition tagsJson : string :=
  jsonText "{'tags':[{'key':'a','value':'1'},{'key':'b','value':'2'}]}".

Definition tagsBag : list (string * value string) :=
  [("tags", VSlice [VMap [("key", VString "a"); ("value", VString "1")];
                    VMap [("value", VString "2"); ("key", VString "b")]])].

Definition nameJson : string := jsonText "{'name':'x'}".
Definition nameBag : list (string * value string) := [("name", VString "x")].

Definition nullJson : string := jsonText "{'name':'x','desc':null}".
Definition nullBag : list (string * value string) := [("name", VString "x"); ("desc", VNil)].

Definition regionJson : string := jsonText "{'regionId':'cn-north-1','Version':'v1','name':'x'}".
Definition regionBag : list (string * value string) :=
  [("regionId", VString "cn-north-1"); ("Version", VString "v1"); ("name", VString "x")].

(** ** Induction on decoded values

    A value contains values in its slices and in its maps; the principle
    below gives the induction hypothesis for each of them. *)

Section ValueInduction.

Context {float64 : Type}.
Variable P : value float64 -> Prop.
Hypothesis P_nil : P VNil.
Hypothesis P_bool : forall b, P (VBool b).
Hypothesis P_float : forall f, P (VFloat64 f).
Hypothesis P_string : forall s, P (VString s).
Hypothesis P_slice : forall e, Forall P e -> P (VSlice e).
Hypothesis P_map : forall m, Forall (fun kv => P (snd kv)) m -> P (VMap m).

Fixpoint value_nested_ind (v : value float64) : P v :=
  match v with
  | VNil => P_nil
  | VBool b => P_bool b
  | VFloat64 f => P_float f
  | VString s => P_string s
  | VSlice e =>
      P_slice e
        ((fix elems (e : list (value float64)) : Forall P e :=
            match e with
            | [] => Forall_nil _
            | n :: e' => Forall_cons n (value_nested_ind n) (elems e')
            end) e)
  | VMap m =>
      P_map m
        ((fix entries (m : list (string * value float64))
            : Forall (fun kv => P (snd kv)) m :=
            match m with
            | [] => Forall_nil _
            | kv :: m' => Forall_cons kv (value_nested_ind (snd kv)) (entries m')
            end) m)
  end.

End ValueInduction.

(** An entry that adds no pair to the query: an ignored field, a null, or
    an empty array. *)
Definition quietEntry {float64 : Type} (baseRequestFields : list string) (url : string)
    (kv : string * value float64) : bool :=
  shouldIgnoreField baseRequestFields url (fst kv)
  || match snd kv with
     | VNil => true
     | VSlice [] => true
     | _ => false
     end.

(** The bytes a request target is made of: letters, digits, the marks and
    reserved characters of a path or a query, and [%]. *)
Definition urlByte (c : ascii) : bool :=
  is_alnum c || byte_of "-_.~!$&'()*+,;=:@[]%/?" c.

(** The bytes of the text [strconv] prints for a finite [float64]. *)
Definition numberByte (c : ascii) : bool := is_digit c || byte_of "+-.eE" c.

(** A boolean, or a number that prints as such a text. *)
Definition numberOrBool {float64 : Type} (formatFloat : float64 -> string)
    (v : value float64) : bool :=
  match v with
  | VFloat64 f => all_bytes numberByte (formatFloat f)
  | VBool _ => true
  | _ => false
  end.

(** A field whose key is made of letters, digits, [-] and [_] and whose
    value is an array of numbers and booleans. *)
Definition numericArrayEntry {float64 : Type} (formatFloat : float64 -> string)
    (kv : string * value float64) : bool :=
  all_bytes regexp.pathParamByte (fst kv)
  && match snd kv with
     | VSlice e => forallb (numberOrBool formatFloat) e
     | _ => false
     end.

(** The bytes of a pair emitted for an element of such an array. *)
Definition pairByte (c : ascii) : bool := is_alnum c || byte_of "-_.+=%!()" c.

(** The shape of a pair that [net/url] cannot read: the value opens with
    [%!], which is no escape. *)
Definition unreadablePair (pair : string) : Prop :=
  exists key text,
    pair = key ++ String "=" ("%!s" ++ text)
    /\ noByte "=" key = true
    /\ all_bytes pairByte pair = true.

(** ** URL templates

    A template as the pieces the pattern of [replaceUrlWithPathParam] cuts
    it into: text that holds no opening brace, and placeholders. *)
Inductive piece : Type :=
| literal (text : string)
| pathParam (name : string).

Definition pieceText (p : piece) : string :=
  match p with
  | literal text => text
  | pathParam name => placeholder name
  end.

Fixpoint render (t : list piece) : string :=
  match t with
  | [] => EmptyString
  | p :: t' => pieceText p ++ render t'
  end.

Definition wellFormedPiece (p : piece) : Prop :=
  match p with
  | literal text => noByte "{" text = true
  | pathParam name => pathParamName name
  end.

(** The placeholders of a template, in order. *)
Definition placeholders (t : list piece) : list string :=
  flat_map (fun p => match p with
                     | literal _ => []
                     | pathParam name => [placeholder name]
                     end) t.

(** One pass of [strings.Replace] seen on the pieces. *)
Definition replacePiece (name new : string) (p : piece) : piece :=
  match p with
  | literal _ => p
  | pathParam name' => if name' =? name then literal new else p
  end.

Section Template.

Context {float64 : Type}.
Variable formatFloat : float64 -> string.

(** A piece with the value of the bag in the place of its placeholder. *)
Definition fill (paramMap : list (string * value float64)) (p : piece) : piece :=
  match p with
  | literal _ => p
  | pathParam name =>
      match lookup name paramMap with
      | Some v => literal (Sprint_v formatFloat v)
      | None => p
      end
  end.

(** The same, for the placeholders among [names] only. *)
Definition fillNamed (names : list string) (paramMap : list (string * value float64))
    (p : piece) : piece :=
  match p with
  | literal _ => p
  | pathParam name => if existsb (String.eqb name) names then fill paramMap p else p
  end.

(** A name the bag has a value for, whose [%v] text holds no opening
    brace. *)
Definition fillableName (paramMap : list (string * value float64)) (name : string) : Prop :=
  pathParamName name
  /\ exists v, lookup name paramMap = Some v
               /\ noByte "{" (Sprint_v formatFloat v) = true.

Definition fillable (paramMap : list (string * value float64)) (p : piece) : Prop :=
  match p with
  | literal text => noByte "{" text = true
  | pathParam name => fillableName paramMap name
  end.

End Template.

(** The bytes that mean nothing to [net/url] when it reads a query, and
    that [url.Parse] accepts in one: no separator, no escape, no [+],
    no [?] or [#], no control byte. *)
Definition queryTextByte (c : ascii) : bool :=
  negb (byte_of "&=;+%#?" c)
  && negb (Nat.ltb (nat_of_ascii c) 32 || Nat.eqb (nat_of_ascii c) 127).

(** The bytes that separate the pairs of a query and the two sides of a
    pair. *)
Definition separatorFree (s : string) : bool :=
  all_bytes (fun c => negb (byte_of "&=;" c)) s.

(** [enc s] is read back as [s] by [net/url] and holds no separator. *)
Definition readBack (enc : string -> string) (s : string) : Prop :=
  url.QueryUnescape (enc s) = inl s /\ separatorFree (enc s) = true.

(** The pairs of a bag of scalars, as [net/url] holds them. *)
Definition singleValued (kv : string * string) : string * list string :=
  (fst kv, [snd kv]).

(** A field that is emitted, whose value is a string, a number or a
    boolean, and whose key and [%v] text are made of such bytes. *)
Definition plainEntry {float64 : Type} (formatFloat : float64 -> string)
    (baseRequestFields : list string) (url : string) (kv : string * value float64) : bool :=
  negb (shouldIgnoreField baseRequestFields url (fst kv))
  && scalar (snd kv)
  && all_bytes queryTextByte (fst kv)
  && all_bytes queryTextByte (valueVerbText formatFloat (snd kv)).

Definition regionOnlyJson : string := jsonText "{'regionId':'cn-north-1','Version':'v1'}".
Definition regionOnlyBag : list (string * value string) :=
  [("regionId", VString "cn-north-1"); ("Version", VString "v1")].

Definition quietJson : string := jsonText "{'desc':null,'ids':[]}".
Definition quietBag : list (string * value string) := [("desc", VNil); ("ids", VSlice [])].

Definition idsJson : string := jsonText "{'ids':[3,true]}".
Definition idsBag : list (string * value string) :=
  [("ids", VSlice [VFloat64 "3"; VBool true])].

Definition searchJson : string := jsonText "{'name':'a b','id':'7'}".
Definition searchBag : list (string * value string) :=
  [("name", VString "a b"); ("id", VString "7")].

Definition instanceTemplate : list piece :=
  [literal "/v1/regions/"; pathParam "regionId"; literal "/instances/";
   pathParam "instanceId"; literal "/peers/"; pathParam "regionId"].
Definition instanceBag : list (string * value string) :=
  [("instanceId", VString "i-1"); ("regionId", VString "cn-north-1")].

(** * Properties *)

(** ** The library models on small inputs *)

Example FindAllString_two :
  regexp.FindAllString "/region/{regionId}/host/{host-Id}/{}{a b}{{x}"
  = ["{regionId}"; "{host-Id}"; "{x}"].
Proof. reflexivity. Qed.

Example Replace_twice :
  strings.Replace "/a/{id}/b/{id}" "{id}" "7" = "/a/7/b/7".
Proof. reflexivity. Qed.

Example Trim_braces :
  strings.TrimRight (strings.TrimLeft "{regionId}" "{") "}" = "regionId".
Proof. reflexivity. Qed.

Example Parse_query_amp :
  option_map url.Encode
    (match url.Parse "/x?name=a b&c=1%zz&d=%41" with inl u => Some (url.Query u) | inr _ => None end)
  = Some "d=A&name=a+b".
Proof. reflexivity. Qed.


(** ** The loops of [accessMap] *)

Section AccessMapFacts.

Context {float64 : Type}.
Variable formatFloat : float64 -> string.
Variable baseRequestFields : list string.

Local Abbreviation accessMap' := (accessMap formatFloat baseRequestFields).
Local Abbreviation accessValue' := (accessValue formatFloat baseRequestFields).
Local Abbreviation accessElements' := (accessElements formatFloat baseRequestFields).
Local Abbreviation shouldIgnoreField' := (shouldIgnoreField baseRequestFields).

(** The type switch on a slice is the loop over its elements, and the loop
    over the fields of an element is [accessMap'] itself. *)
Lemma accessValue_slice (url k : string) (e : list (value float64)) (prefix : string)
    (resultList : list string) :
  accessValue' url k (VSlice e) prefix resultList
  = accessElements' url k prefix e 0 resultList.
Proof.
  cbn [accessValue].
  match goal with
  | |- ?loop e 0 resultList = _ =>
      enough (H : forall e i resultList,
                 loop e i resultList = accessElements' url k prefix e i resultList)
        by apply H
  end.
  clear e resultList.
  induction e as [|n e IH]; intros i resultList; [reflexivity|].
  cbn [accessElements]. rewrite <- IH. f_equal.
  destruct n as [|b|x|s|l|f]; try reflexivity.
  generalize (k ++ "." ++ fmt.fmtInteger (i + 1) ++ ".") as subPrefix.
  intros subPrefix. revert resultList.
  induction f as [|[k' v'] f IHf]; intros resultList; [reflexivity|].
  cbn [accessMap]. now rewrite <- IHf.
Qed.

Lemma accessMap_cons (k : string) (v : value float64) (m : list (string * value float64))
    (url prefix : string) (resultList : list string) :
  accessMap' ((k, v) :: m) url prefix resultList
  = accessMap' m url prefix
      (if shouldIgnoreField' url k then resultList
       else accessValue' url k v prefix resultList).
Proof. reflexivity. Qed.

Lemma accessMap_app (m1 m2 : list (string * value float64)) (url prefix : string)
    (resultList : list string) :
  accessMap' (m1 ++ m2)%list url prefix resultList
  = accessMap' m2 url prefix (accessMap' m1 url prefix resultList).
Proof.
  revert resultList.
  induction m1 as [|[k v] m1 IH]; intros resultList; [reflexivity|].
  cbn [List.app accessMap]. apply IH.
Qed.

End AccessMapFacts.

(** ** Builder selection and the bodyless body *)

(** C7: [GetParameterBuilder] returns the bodyless builder exactly when the
    method is GET, DELETE or HEAD, and the body-bearing builder for every
    other method string; it is total, so no method raises an error, and the
    builder holds the logger it was given. *)
Theorem C7_builder_selection :
  forall (Logger : Type) (method : string) (logger : Logger),
    (GetParameterBuilder method logger = withoutBody {| WithoutBody_Logger := logger |}
     <-> method = "GET" \/ method = "DELETE" \/ method = "HEAD")
    /\ (GetParameterBuilder method logger = withBody {| WithBody_Logger := logger |}
        <-> ~ (method = "GET" \/ method = "DELETE" \/ method = "HEAD")).
Proof.
  intros Logger method logger. unfold GetParameterBuilder, MethodGet, MethodDelete, MethodHead.
  destruct (String.eqb_spec method "GET") as [Hg|Hg];
    destruct (String.eqb_spec method "DELETE") as [Hd|Hd];
    destruct (String.eqb_spec method "HEAD") as [Hh|Hh]; cbn [orb];
    (split; split; intros H; try discriminate H; try reflexivity; try tauto).
Qed.

(** C6: [BuildBody] of the bodyless builder returns the empty string and no
    error (and logs nothing) for every input bytes, well-formed JSON or
    not: the decoder is not consulted.  The same holds through the interface
    for the builder selected for GET, DELETE and HEAD. *)
Theorem C6_bodyless_BuildBody_empty :
  forall (float64 Logger : Type) (baseRequestFields : list string)
         (json_Unmarshal : string -> list (string * value float64) + error)
         (json_Marshal : list (string * value float64) -> string)
         (b : WithoutBodyBuilder Logger) (logger : Logger) (paramJson : string),
    WithoutBodyBuilder_BuildBody b paramJson = ((EmptyString, None), [])
    /\ BuildBody baseRequestFields json_Unmarshal json_Marshal
         (GetParameterBuilder "GET" logger) paramJson = ((EmptyString, None), [])
    /\ BuildBody baseRequestFields json_Unmarshal json_Marshal
         (GetParameterBuilder "DELETE" logger) paramJson = ((EmptyString, None), [])
    /\ BuildBody baseRequestFields json_Unmarshal json_Marshal
         (GetParameterBuilder "HEAD" logger) paramJson = ((EmptyString, None), []).
Proof. intros. repeat split. Qed.

(** ** Query flattening *)

Section Flattening.

Context {float64 : Type}.
Variable formatFloat : float64 -> string.
Variable baseRequestFields : list string.

Local Abbreviation accessMap' := (accessMap formatFloat baseRequestFields).
Local Abbreviation accessValue' := (accessValue formatFloat baseRequestFields).
Local Abbreviation accessElements' := (accessElements formatFloat baseRequestFields).
Local Abbreviation shouldIgnoreField' := (shouldIgnoreField baseRequestFields).

(** C8: a field [k] whose value is a bare object [o], and that is neither a
    path parameter of the template nor a base field, is neither skipped nor
    flattened: wherever it stands in the map, the loop appends exactly one
    pair for it, [prefix ++ k ++ "=" ++ text], where [text] is what [%v]
    prints for the map ([map[...]]), and goes on with the other fields. *)
Theorem C8_bare_object_one_pair :
  forall (url k prefix : string) (o m1 m2 : list (string * value float64))
         (resultList : list string),
    shouldIgnoreField' url k = false ->
    accessMap' (m1 ++ (k, VMap o) :: m2)%list url prefix resultList
    = accessMap' m2 url prefix
        (append (accessMap' m1 url prefix resultList)
           (prefix ++ k ++ "=" ++ fmt.printValue formatFloat fmt.verb_v (VMap o)))
    /\ accessMap' [(k, VMap o)] url EmptyString []
       = [k ++ "=" ++ fmt.printValue formatFloat fmt.verb_v (VMap o)]
    /\ exists inner, fmt.printValue formatFloat fmt.verb_v (VMap o) = "map[" ++ inner ++ "]".
Proof.
  intros url k prefix o m1 m2 resultList Hk. repeat split.
  - rewrite accessMap_app, accessMap_cons, Hk. reflexivity.
  - rewrite accessMap_cons, Hk. reflexivity.
  - cbn [fmt.printValue]. eexists. reflexivity.
Qed.

Lemma accessElements_prefix_irrelevant (url k prefix prefix' : string)
    (e : list (value float64)) :
  forallb objectOrNil e = true ->
  forall (i : nat) (resultList : list string),
    accessElements' url k prefix e i resultList
    = accessElements' url k prefix' e i resultList.
Proof.
  induction e as [|n e IH]; intros He i resultList; [reflexivity|].
  cbn [forallb] in He. apply andb_prop in He as [Hn He].
  cbn [accessElements]. rewrite (IH He).
  destruct n; try discriminate Hn; reflexivity.
Qed.

(** C9: when the loop recurses into an object that is an array element, the
    prefix it passes is [k.i.] alone: what it was called with is dropped.
    So the pairs of a slice of objects do not depend on the prefix, and for
    a bag with two levels of array-of-object nesting the key of the inner
    field starts at the inner array's name: [{"a":[{"b":[{"c":x}]}]}]
    gives [b.1.c=x], not [a.1.b.1.c=x]. *)
Theorem C9_nested_prefix_dropped :
  forall (url a b c x prefix prefix' : string) (e : list (value float64))
         (resultList : list string),
    shouldIgnoreField' url a = false ->
    shouldIgnoreField' url b = false ->
    shouldIgnoreField' url c = false ->
    forallb objectOrNil e = true ->
    accessMap' [(a, VSlice e)] url prefix resultList
    = accessMap' [(a, VSlice e)] url prefix' resultList
    /\ accessMap' [(a, VSlice [VMap [(b, VSlice [VMap [(c, VString x)]])]])] url prefix
         resultList
       = append resultList ((b ++ ".1.") ++ c ++ "=" ++ x).
Proof.
  intros url a b c x prefix prefix' e resultList Ha Hb Hc He.
  split.
  - rewrite !accessMap_cons, Ha, !accessValue_slice.
    cbn [accessMap]. now apply accessElements_prefix_irrelevant.
  - rewrite accessMap_cons, Ha, accessValue_slice.
    cbn [accessElements accessMap]. rewrite Hb, accessValue_slice.
    cbn [accessElements accessMap]. rewrite Hc. reflexivity.
Qed.

Lemma accessElements_scalars (url k prefix : string) (e : list (value float64)) :
  forallb scalar e = true ->
  forall (i : nat) (resultList : list string),
    accessElements' url k prefix e i resultList
    = (resultList ++ scalarPairs formatFloat prefix k e i)%list.
Proof.
  induction e as [|n e IH]; intros He i resultList.
  - cbn. now rewrite app_nil_r.
  - cbn [forallb] in He. apply andb_prop in He as [Hn He].
    cbn [accessElements scalarPairs]. rewrite (IH He).
    destruct n as [|[|]|f|s|l|m]; try discriminate Hn;
      unfold append; rewrite <- app_assoc; reflexivity.
Qed.

(** C10: the elements of an array are formatted with [%s].  For a field
    [k] that is not ignored and whose value is an array of numbers, booleans
    and strings, element [i] (counted from 1) gives the pair
    [prefix k.i=text], where [text] is the literal text of a string but
    [%!s(float64=...)] for a number and [%!s(bool=...)] for a boolean.  A
    top-level scalar is formatted with [%v]: the number as [strconv] prints
    it, the boolean as [true] or [false]. *)
Theorem C10_array_scalars_use_string_verb :
  forall (url k prefix : string) (e : list (value float64)) (v : value float64)
         (resultList : list string),
    shouldIgnoreField' url k = false ->
    forallb scalar e = true ->
    scalar v = true ->
    accessMap' [(k, VSlice e)] url prefix resultList
    = (resultList ++ scalarPairs formatFloat prefix k e 0)%list
    /\ accessMap' [(k, v)] url prefix resultList
       = append resultList (prefix ++ k ++ "=" ++ valueVerbText formatFloat v).
Proof.
  intros url k prefix e v resultList Hk He Hv. split.
  - rewrite accessMap_cons, Hk, accessValue_slice. cbn [accessMap].
    now apply accessElements_scalars.
  - rewrite accessMap_cons, Hk. cbn [accessMap].
    destruct v as [|[|]|f|s|l|m]; try discriminate Hv; reflexivity.
Qed.

End Flattening.

(** ** Strings: prefixes and occurrences *)

Lemma append_assoc (a b c : string) : (a ++ b) ++ c = a ++ b ++ c.
Proof. induction a as [|x a IH]; cbn; [reflexivity | now rewrite IH]. Qed.

Lemma append_nil_r (a : string) : a ++ EmptyString = a.
Proof. induction a as [|x a IH]; cbn; [reflexivity | now rewrite IH]. Qed.

Lemma HasPrefix_app (p r : string) : strings.HasPrefix (p ++ r) p = true.
Proof.
  unfold strings.HasPrefix.
  induction p as [|a p IH]; cbn; [now destruct r|].
  destruct (ascii_dec a a) as [_|Hn]; [exact IH | now elim Hn].
Qed.

Lemma HasPrefix_inv (s p : string) :
  strings.HasPrefix s p = true -> exists r, s = p ++ r.
Proof.
  unfold strings.HasPrefix. revert s.
  induction p as [|a p IH]; intros s H.
  - now exists s.
  - destruct s as [|b s]; cbn in H; [discriminate|].
    destruct (ascii_dec a b) as [->|]; [|discriminate].
    destruct (IH s H) as [r ->]. now exists r.
Qed.

Lemma HasPrefix_head (c a : ascii) (s p : string) :
  strings.HasPrefix (String c s) (String a p) = true -> c = a.
Proof.
  unfold strings.HasPrefix. cbn. destruct (ascii_dec a c); [congruence | discriminate].
Qed.

Lemma Contains_cons (c : ascii) (s p : string) :
  strings.Contains (String c s) p
  = strings.HasPrefix (String c s) p || strings.Contains s p.
Proof. reflexivity. Qed.

Lemma Contains_intro (a p r : string) : strings.Contains (a ++ p ++ r) p = true.
Proof.
  induction a as [|x a IH].
  - cbn [String.append]. destruct (p ++ r) eqn:E.
    + cbn. destruct p; [reflexivity | discriminate E].
    + rewrite Contains_cons, <- E, HasPrefix_app. reflexivity.
  - cbn [String.append]. rewrite Contains_cons, IH. apply orb_true_r.
Qed.

Lemma Contains_inv (s p : string) :
  strings.Contains s p = true -> exists a r, s = a ++ p ++ r.
Proof.
  induction s as [|c s IH]; intros H.
  - change (strings.HasPrefix EmptyString p || false = true) in H. rewrite orb_false_r in H.
    destruct (HasPrefix_inv _ _ H) as [r Hr]. now exists EmptyString, r.
  - rewrite Contains_cons in H. apply orb_prop in H as [H|H].
    + destruct (HasPrefix_inv _ _ H) as [r Hr]. now exists EmptyString, r.
    + destruct (IH H) as (a & r & ->). now exists (String c a), r.
Qed.

(** ** The pattern of a path parameter *)

Lemma pathParamByte_not_open (c : ascii) : regexp.pathParamByte c = true -> c <> "{"%char.
Proof. intros H ->. discriminate H. Qed.

Lemma pathParamByte_not_close (c : ascii) : regexp.pathParamByte c = true -> c <> "}"%char.
Proof. intros H ->. discriminate H. Qed.

Lemma span_word (w r : string) :
  all_bytes regexp.pathParamByte w = true ->
  regexp.span (w ++ String "}" r) = (w, String "}" r).
Proof.
  induction w as [|c w IH]; intros H; [reflexivity|].
  cbn in H. apply andb_prop in H as [Hc Hw].
  cbn [String.append regexp.span]. now rewrite Hc, (IH Hw).
Qed.

Lemma span_inv (s w rest : string) :
  regexp.span s = (w, rest) ->
  s = w ++ rest /\ all_bytes regexp.pathParamByte w = true.
Proof.
  revert w rest. induction s as [|c s IH]; intros w rest H; cbn in H.
  - injection H as <- <-. now split.
  - destruct (regexp.pathParamByte c) eqn:Hc.
    + destruct (regexp.span s) as [w' rest'] eqn:E. injection H as <- <-.
      destruct (IH _ _ eq_refl) as [-> Hw]. cbn. now rewrite Hc.
    + injection H as <- <-. now split.
Qed.

Lemma matchAt_placeholder (name r : string) :
  pathParamName name ->
  regexp.matchAt (placeholder name ++ r) = Some (placeholder name).
Proof.
  intros [Hne Hw]. unfold placeholder.
  cbn [String.append regexp.matchAt]. rewrite Ascii.eqb_refl, append_assoc.
  cbn [String.append]. rewrite (span_word _ _ Hw).
  destruct name; [now elim Hne | now destruct r].
Qed.

Lemma matchAt_inv (s m : string) :
  regexp.matchAt s = Some m ->
  exists name r, pathParamName name /\ m = placeholder name /\ s = m ++ r.
Proof.
  destruct s as [|c s]; [discriminate|]. cbn [regexp.matchAt].
  destruct (Ascii.eqb_spec c "{") as [->|]; [|discriminate].
  destruct (regexp.span s) as [w rest] eqn:E.
  destruct (span_inv _ _ _ E) as [-> Hw].
  destruct (negb (w =? EmptyString)) eqn:Hne; [|discriminate]. cbn [andb].
  destruct (strings.HasPrefix rest "}") eqn:Hr; [|discriminate].
  intros [= <-]. destruct (HasPrefix_inv _ _ Hr) as [r ->].
  exists w, r. repeat split.
  - intros ->. discriminate Hne.
  - exact Hw.
  - unfold placeholder. cbn [String.append]. now rewrite !append_assoc.
Qed.

Lemma noOpenWithin_word (w r : string) :
  all_bytes regexp.pathParamByte w = true ->
  noOpenWithin (String.length w + 1) (w ++ String "}" r).
Proof.
  induction w as [|c w IH]; intros H.
  - cbn. split; [discriminate | now destruct r].
  - cbn in H. apply andb_prop in H as [Hc Hw]. cbn.
    split; [now apply pathParamByte_not_open | now apply IH].
Qed.

Lemma length_append (a b : string) :
  String.length (a ++ b) = String.length a + String.length b.
Proof. induction a as [|x a IH]; cbn; [reflexivity | now rewrite IH]. Qed.

(** Every occurrence of a placeholder in the template is found. *)
Lemma find_from_occurrence (name : string) :
  pathParamName name ->
  forall (s : string) (pending : nat),
    noOpenWithin pending s ->
    strings.Contains s (placeholder name) = true ->
    In (placeholder name) (regexp.find_from pending s).
Proof.
  intros Hname. induction s as [|c s IH]; intros pending Hp Hc.
  - cbn in Hc. discriminate Hc.
  - rewrite Contains_cons in Hc. cbn [regexp.find_from].
    destruct pending as [|p].
    + destruct (regexp.matchAt (String c s)) as [m|] eqn:Hm.
      * destruct (strings.HasPrefix (String c s) (placeholder name)) eqn:Hpre.
        -- destruct (HasPrefix_inv _ _ Hpre) as [r Hr].
           rewrite Hr, (matchAt_placeholder _ _ Hname) in Hm.
           injection Hm as <-. now left.
        -- right. apply IH; [|exact Hc].
           destruct (matchAt_inv _ _ Hm) as (w & r & [_ Hw] & -> & Hs).
           unfold placeholder in Hs |- *. cbn [String.append] in Hs.
           injection Hs as _ ->. rewrite append_assoc. cbn [String.append String.length].
           replace (S (String.length (w ++ "}")) - 1) with (String.length w + 1)
             by (rewrite length_append; cbn [String.length]; lia).
           now apply noOpenWithin_word.
      * destruct (strings.HasPrefix (String c s) (placeholder name)) eqn:Hpre.
        -- destruct (HasPrefix_inv _ _ Hpre) as [r Hr].
           rewrite Hr, (matchAt_placeholder _ _ Hname) in Hm. discriminate Hm.
        -- apply IH; [exact I | exact Hc].
    + destruct Hp as [Hc0 Hp].
      destruct (strings.HasPrefix (String c s) (placeholder name)) eqn:Hpre.
      * apply HasPrefix_head in Hpre. now elim Hc0.
      * apply IH; [exact Hp | exact Hc].
Qed.

(** Every match is a placeholder that occurs in the template. *)
Lemma find_from_placeholder (s : string) :
  forall (pending : nat) (m : string),
    In m (regexp.find_from pending s) ->
    exists name, pathParamName name /\ m = placeholder name
                 /\ strings.Contains s m = true.
Proof.
  induction s as [|c s IH]; intros pending m H; [elim H|].
  cbn [regexp.find_from] in H.
  assert (Hrec : forall p, In m (regexp.find_from p s) ->
                 exists name, pathParamName name /\ m = placeholder name
                              /\ strings.Contains (String c s) m = true).
  { intros p Hin. destruct (IH _ _ Hin) as (name & Hn & Hm & Hc).
    exists name. split; [exact Hn | split; [exact Hm|]].
    rewrite Contains_cons, Hc. apply orb_true_r. }
  destruct pending as [|p]; [|now apply (Hrec p)].
  destruct (regexp.matchAt (String c s)) as [m'|] eqn:Hm; [|now apply (Hrec 0)].
  destruct H as [<-|H]; [|now apply (Hrec _ H)].
  destruct (matchAt_inv _ _ Hm) as (name & r & Hn & -> & Hs).
  exists name. split; [exact Hn | split; [reflexivity|]].
  rewrite Contains_cons. rewrite Hs at 1. now rewrite HasPrefix_app.
Qed.

(** ** Path-parameter substitution *)

Lemma TrimRight_word (w : string) :
  all_bytes regexp.pathParamByte w = true ->
  strings.TrimRight (w ++ "}") "}" = w.
Proof.
  induction w as [|c w IH]; intros H; [reflexivity|].
  cbn in H. apply andb_prop in H as [Hc Hw].
  cbn [String.append strings.TrimRight]. rewrite (IH Hw).
  destruct w; [|reflexivity].
  cbn [byte_of]. destruct (Ascii.eqb_spec "}" c) as [<-|]; [discriminate Hc | reflexivity].
Qed.

(** The field name the loop takes from a match. *)
Lemma field_of_placeholder (name : string) :
  pathParamName name ->
  strings.TrimRight (strings.TrimLeft (placeholder name) "{") "}" = name.
Proof.
  intros [Hne Hw]. unfold placeholder. cbn [String.append strings.TrimLeft byte_of].
  rewrite Ascii.eqb_refl. cbn [orb].
  destruct name as [|c name]; [now elim Hne|].
  cbn [String.append strings.TrimLeft byte_of].
  assert (Hc : regexp.pathParamByte c = true)
    by (cbn in Hw; now apply andb_prop in Hw as [Hc _]).
  destruct (Ascii.eqb_spec "{" c) as [<-|]; [discriminate Hc|]. cbn [orb].
  now apply (TrimRight_word (String c name)).
Qed.

Section PathParameters.

Context {float64 : Type}.
Variable formatFloat : float64 -> string.
Variable baseRequestFields : list string.
Variable json_Unmarshal : string -> list (string * value float64) + error.
Variable Logger : Type.

(** The loop stops at the first match whose field the bag lacks. *)
Lemma replaceMatches_missing (paramMap : list (string * value float64)) :
  forall (matches : list string) (url : string),
    (forall m, In m matches -> exists name, pathParamName name /\ m = placeholder name) ->
    (exists name, pathParamName name /\ In (placeholder name) matches
                  /\ lookup name paramMap = None) ->
    exists field,
      pathParamName field /\ In (placeholder field) matches
      /\ lookup field paramMap = None
      /\ replaceMatches formatFloat matches url paramMap
         = (EmptyString, Some (missingPathParameter field)).
Proof.
  induction matches as [|m matches IH]; intros url Hall (name & Hname & Hin & Hmiss).
  - elim Hin.
  - destruct (Hall m (or_introl eq_refl)) as (f & Hf & ->).
    cbn [replaceMatches]. rewrite (field_of_placeholder _ Hf).
    destruct (lookup f paramMap) as [v|] eqn:Hv.
    + destruct Hin as [Heq|Hin].
      * assert (f = name) as ->.
        { unfold placeholder in Heq. injection Heq as Heq.
          clear -Heq. revert name Heq.
          induction f as [|a f IHf]; intros [|b name] Heq; cbn in Heq;
            try reflexivity; try (destruct name; discriminate Heq);
            try (destruct f; discriminate Heq).
          injection Heq as -> Heq. f_equal. now apply IHf. }
        congruence.
      * destruct (IH (strings.Replace url (placeholder f) (Sprint_v formatFloat v)))
          as (field & H1 & H2 & H3 & H4).
        -- intros m' Hm'. apply Hall. now right.
        -- now exists name.
        -- exists field. repeat split; try assumption; try apply H1. now right.
    + exists f. repeat split; try assumption; try apply Hf. now left.
Qed.

(** C2: when the template contains a placeholder [{name}] (a non-empty word
    of letters, digits, [-] and [_] in braces) and the decoded bag has no
    key [name], [BuildURL] of either builder returns the empty string and the
    error "Can not find path parameter: " followed by a field that the
    template names in a placeholder and the bag lacks (the first such, so
    [name] itself when it is the only one); the error is logged, and no URL
    is produced with the placeholder dropped. *)
Theorem C2_missing_path_parameter :
  forall (pb : ParameterBuilder Logger) (url name paramJson : string)
         (paramMap : list (string * value float64)),
    pathParamName name ->
    strings.Contains url (placeholder name) = true ->
    json_Unmarshal paramJson = inl paramMap ->
    lookup name paramMap = None ->
    exists field,
      pathParamName field
      /\ strings.Contains url (placeholder field) = true
      /\ lookup field paramMap = None
      /\ ((forall f, pathParamName f -> strings.Contains url (placeholder f) = true ->
                     lookup f paramMap = None -> f = name) -> field = name)
      /\ replaceUrlWithPathParam formatFloat url paramMap
         = (EmptyString, Some (missingPathParameter field))
      /\ BuildURL formatFloat baseRequestFields json_Unmarshal pb url paramJson
         = ((EmptyString, Some (missingPathParameter field)),
            [(LogError, [ErrorText (missingPathParameter field)])]).
Proof.
  intros pb url name paramJson paramMap Hname Hurl Hjson Hmiss.
  destruct (replaceMatches_missing paramMap (regexp.FindAllString url) url)
    as (field & Hf & Hin & Hnone & Hrep).
  - intros m Hm. destruct (find_from_placeholder _ _ _ Hm) as (n & Hn & -> & _).
    now exists n.
  - exists name. repeat split; try assumption; try apply Hname.
    now apply find_from_occurrence.
  - destruct (find_from_placeholder _ _ _ Hin) as (n & _ & _ & Hc).
    exists field. split; [exact Hf|]. split; [exact Hc|]. split; [exact Hnone|].
    split; [intros Huniq; now apply Huniq|].
    split; [exact Hrep|].
    destruct pb as [b|b]; cbn [BuildURL];
      unfold WithoutBodyBuilder_BuildURL, WithBodyBuilder_BuildURL;
      rewrite Hjson; unfold replaceUrlWithPathParam in Hrep |- *; now rewrite Hrep.
Qed.

End PathParameters.

(** ** [encodeUrl] and the query component *)

Lemma Contains_byte (c : ascii) (s : string) :
  strings.Contains s (String c EmptyString) = negb (noByte c s).
Proof.
  induction s as [|x s IH]; [reflexivity|].
  rewrite Contains_cons, IH. unfold noByte, strings.HasPrefix. cbn.
  destruct (ascii_dec c x) as [->|Hn].
  - rewrite Ascii.eqb_refl. now destruct s.
  - destruct (Ascii.eqb_spec x c) as [->|_]; [now elim Hn | reflexivity].
Qed.

Lemma noByte_app (c : ascii) (a b : string) :
  noByte c (a ++ b) = noByte c a && noByte c b.
Proof.
  unfold noByte. induction a as [|x a IH]; cbn; [reflexivity|].
  now rewrite IH, andb_assoc.
Qed.

Lemma noByte_skip (c : ascii) (n : nat) (s : string) :
  noByte c s = true -> noByte c (skip n s) = true.
Proof.
  revert s. induction n as [|n IH]; intros s H; [exact H|].
  destruct s as [|x s]; [reflexivity|].
  cbn in H. apply andb_prop in H as [_ H]. now apply IH.
Qed.

Lemma Cut_absent (c : ascii) (s : string) :
  noByte c s = true -> strings.Cut s (String c EmptyString) = (s, EmptyString, false).
Proof.
  induction s as [|x s IH]; intros H; [reflexivity|].
  cbn in H. apply andb_prop in H as [Hx H].
  cbn [strings.Cut]. unfold strings.HasPrefix. cbn [prefix].
  destruct (ascii_dec c x) as [->|_].
  - rewrite Ascii.eqb_refl in Hx. discriminate Hx.
  - now rewrite (IH H).
Qed.

Lemma Cut_before_noByte (c d : ascii) (s : string) :
  noByte d s = true -> noByte d (fst (fst (strings.Cut s (String c EmptyString)))) = true.
Proof.
  induction s as [|x s IH]; intros H; [reflexivity|].
  cbn in H. apply andb_prop in H as [Hx H].
  cbn [strings.Cut]. destruct (strings.HasPrefix (String x s) (String c EmptyString)); [reflexivity|].
  specialize (IH H). destruct (strings.Cut s (String c EmptyString)) as [[before after] found].
  cbn [fst] in IH |- *. unfold noByte in IH |- *. cbn. now rewrite Hx, IH.
Qed.

Lemma upperhex_not_question (n : nat) : url.upperhex n <> "?"%char.
Proof.
  unfold url.upperhex.
  do 17 (destruct n as [|n]; [discriminate|]). discriminate.
Qed.

Lemma escape_path_no_question (s : string) :
  noByte "?" (url.escape s url.encodePath) = true.
Proof.
  induction s as [|c s IH]; [reflexivity|].
  cbn [url.escape]. destruct (url.shouldEscape c url.encodePath) eqn:Hc.
  - unfold noByte in IH |- *. cbn [all_bytes]. rewrite IH.
    destruct (Ascii.eqb_spec (url.upperhex (nat_of_ascii c / 16)) "?") as [E|_];
      [now elim (upperhex_not_question _ E)|].
    destruct (Ascii.eqb_spec (url.upperhex (nat_of_ascii c mod 16)) "?") as [E|_];
      [now elim (upperhex_not_question _ E)|].
    reflexivity.
  - unfold noByte in IH |- *. cbn [all_bytes]. rewrite IH.
    destruct (Ascii.eqb_spec c "?") as [->|_]; [discriminate Hc | reflexivity].
Qed.

Lemma validEncoded_path_no_question (s : string) :
  url.validEncoded s url.encodePath = true -> noByte "?" s = true.
Proof.
  induction s as [|c s IH]; intros H; [reflexivity|].
  cbn [url.validEncoded] in H. apply andb_prop in H as [Hc H].
  unfold noByte in IH |- *. cbn [all_bytes]. rewrite (IH H).
  destruct (Ascii.eqb_spec c "?") as [->|_]; [discriminate Hc | reflexivity].
Qed.

Lemma EscapedPath_no_question (u : url.URL) : noByte "?" (url.EscapedPath u) = true.
Proof.
  unfold url.EscapedPath.
  destruct (negb (url.RawPath u =? EmptyString)); cbn [andb];
    [destruct (url.validEncoded (url.RawPath u) url.encodePath) eqn:Hv; cbn [andb];
     [destruct (url.unescape (url.RawPath u) url.encodePath) as [p|];
      [destruct (p =? url.Path u);
       [now apply validEncoded_path_no_question|]|]|]|];
    (destruct (url.Path u =? "*"); [reflexivity | apply escape_path_no_question]).
Qed.

Lemma setPath_RawQuery (u u' : url.URL) (p : string) :
  url.setPath u p = inl u' -> url.RawQuery u' = url.RawQuery u.
Proof.
  unfold url.setPath. destruct (url.unescape p url.encodePath); [|discriminate].
  now intros [= <-].
Qed.

Lemma setFragment_RawQuery (u u' : url.URL) (f : string) :
  url.setFragment u f = inl u' -> url.RawQuery u' = url.RawQuery u.
Proof.
  unfold url.setFragment. destruct (url.unescape f url.encodeFragment); [|discriminate].
  now intros [= <-].
Qed.

(** A URL without [?] parses to one without a query. *)
Lemma parse_no_query (rawURL : string) (u : url.URL) :
  noByte "?" rawURL = true -> url.parse rawURL = inl u -> url.RawQuery u = EmptyString.
Proof.
  intros Hq. unfold url.parse.
  destruct (url.stringContainsCTLByte rawURL); [discriminate|].
  destruct (rawURL =? "*"); [now intros [= <-]|].
  unfold url.getScheme.
  destruct (url.scanScheme 0 rawURL) as [|i|]; [| |discriminate].
  - rewrite (Cut_absent _ _ Hq).
    destruct (strings.HasSuffix rawURL "?" && _); cbv beta iota zeta;
      repeat match goal with
        | |- context [if ?b then _ else _] => destruct b
        | |- context [match ?x with _ => _ end] => destruct x eqn:?
        end;
      try discriminate; intros H;
      try (injection H as <-; reflexivity);
      try (apply setPath_RawQuery in H; exact H).
  - assert (Hr : noByte "?" (skip (S i) rawURL) = true) by now apply noByte_skip.
    rewrite (Cut_absent _ _ Hr).
    destruct (strings.HasSuffix (skip (S i) rawURL) "?" && _); cbv beta iota zeta;
      repeat match goal with
        | |- context [if ?b then _ else _] => destruct b
        | |- context [match ?x with _ => _ end] => destruct x eqn:?
        end;
      try discriminate; intros H;
      try (injection H as <-; reflexivity);
      try (apply setPath_RawQuery in H; exact H).
Qed.

Lemma Parse_no_query (rawURL : string) (u : url.URL) :
  noByte "?" rawURL = true -> url.Parse rawURL = inl u -> url.RawQuery u = EmptyString.
Proof.
  intros Hq. unfold url.Parse.
  pose proof (Cut_before_noByte "#" "?" rawURL Hq) as Hb.
  destruct (strings.Cut rawURL "#") as [[before frag] found]. cbn [fst] in Hb.
  destruct (url.parse before) as [u0|] eqn:Hp; [|discriminate].
  pose proof (parse_no_query _ _ Hb Hp) as H0.
  destruct (frag =? EmptyString); [now intros [= <-]|].
  destruct (url.setFragment u0 frag) as [u1|] eqn:Hf; [|discriminate].
  intros [= <-]. now rewrite (setFragment_RawQuery _ _ _ Hf).
Qed.

(** [encodeUrl] adds no query of its own: a URL without [?] is encoded to
    one without [?]. *)
Lemma encodeUrl_no_query (requestUrl out : string) :
  strings.Contains requestUrl "?" = false ->
  encodeUrl requestUrl = (out, None) ->
  strings.Contains out "?" = false.
Proof.
  rewrite !Contains_byte. intros Hq. apply negb_false_iff in Hq.
  unfold encodeUrl. destruct (url.Parse requestUrl) as [u|] eqn:Hp; [|discriminate].
  unfold url.Query. cbn [withRawPath url.RawQuery].
  rewrite (Parse_no_query _ _ Hq Hp). cbn [url.ParseQuery negb].
  change (url.Encode (url.ParseQuery EmptyString) =? EmptyString) with true. cbn [negb].
  intros [= <-]. now rewrite EscapedPath_no_question.
Qed.

Lemma includes_In (fields : list string) (field : string) :
  includes fields field = true <-> In field fields.
Proof.
  induction fields as [|v fields IH]; cbn; [split; [discriminate | tauto]|].
  destruct (String.eqb_spec v field) as [->|Hn]; [tauto|].
  rewrite IH. split; [tauto | intros [H|H]; [now elim Hn | exact H]].
Qed.

(** ** The body-bearing builder *)

Section WithBody.

Context {float64 : Type}.
Variable formatFloat : float64 -> string.
Variable baseRequestFields : list string.
Variable json_Unmarshal : string -> list (string * value float64) + error.
Variable json_Marshal : list (string * value float64) -> string.
Variable Logger : Type.

(** What [BuildBody] keeps: the entries of the bag, in their order, whose
    key is not a base request field. *)
Lemma removeBaseRequestFields_In (paramMap : list (string * value float64))
    (k : string) (v : value float64) :
  In (k, v) (removeBaseRequestFields baseRequestFields paramMap)
  <-> In (k, v) paramMap /\ ~ In k baseRequestFields.
Proof.
  unfold removeBaseRequestFields. rewrite filter_In. cbn [fst].
  rewrite negb_true_iff, <- not_true_iff_false, includes_In. reflexivity.
Qed.


End WithBody.

(** ** A query appended to a path *)

Lemma all_bytes_app (p : ascii -> bool) (a b : string) :
  all_bytes p (a ++ b) = all_bytes p a && all_bytes p b.
Proof.
  induction a as [|x a IH]; cbn; [reflexivity|]. now rewrite IH, andb_assoc.
Qed.

Lemma scanScheme_query (u q : string) (i : nat) :
  url.scanScheme i (u ++ String "?" q) = url.scanScheme i u.
Proof.
  revert i. induction u as [|c u IH]; intros i; [reflexivity|].
  cbn [String.append url.scanScheme]. rewrite !IH. reflexivity.
Qed.

Lemma scanScheme_ends (u : string) :
  forall i j, url.scanScheme i u = url.SchemeEnds j ->
  exists a b, u = a ++ String ":" b /\ j = i + String.length a.
Proof.
  induction u as [|c u IH]; intros i j H; [discriminate|].
  cbn [url.scanScheme] in H.
  assert (Hrec : url.scanScheme (S i) u = url.SchemeEnds j ->
                 exists a b, String c u = a ++ String ":" b /\ j = i + String.length a).
  { intros H'. destruct (IH _ _ H') as (a & b & -> & ->).
    exists (String c a), b. split; [reflexivity | cbn; lia]. }
  destruct (is_lower c || is_upper c); [now apply Hrec|].
  destruct (is_digit c || byte_of "+-." c).
  - destruct i; [discriminate | now apply Hrec].
  - destruct (Ascii.eqb_spec c ":") as [->|]; [|discriminate].
    destruct i; [discriminate|]. injection H as <-.
    exists EmptyString, u. split; [reflexivity | cbn; lia].
Qed.

Lemma take_app_length (a b : string) : url.take (String.length a) (a ++ b) = a.
Proof.
  induction a as [|x a IH]; cbn; [now destruct b | now rewrite IH].
Qed.

Lemma skip_app_length (a b : string) (c : ascii) :
  skip (S (String.length a)) (a ++ String c b) = b.
Proof. induction a as [|x a IH]; cbn; [reflexivity | exact IH]. Qed.

Lemma HasSuffix_absent (s : string) :
  noByte "?" s = true -> strings.HasSuffix s "?" = false.
Proof.
  induction s as [|x s IH]; intros H; [reflexivity|].
  cbn in H. apply andb_prop in H as [Hx H].
  cbn [strings.HasSuffix]. rewrite (IH H), orb_false_r. cbn [String.eqb].
  apply negb_true_iff in Hx. now rewrite Hx.
Qed.

Lemma HasSuffix_query (a q : string) :
  noByte "?" q = true -> q <> EmptyString -> strings.HasSuffix (a ++ String "?" q) "?" = false.
Proof.
  intros Hq Hne. induction a as [|x a IH].
  - cbn [String.append strings.HasSuffix]. rewrite (HasSuffix_absent _ Hq), orb_false_r.
    cbn [String.eqb]. destruct q; [now elim Hne | reflexivity].
  - cbn [String.append strings.HasSuffix]. rewrite IH, orb_false_r. cbn [String.eqb].
    destruct (a ++ String "?" q) eqn:E; [now destruct a | apply andb_false_r].
Qed.

Lemma Cut_at (c : ascii) (a q : string) :
  noByte c a = true -> strings.Cut (a ++ String c q) (String c EmptyString) = (a, q, true).
Proof.
  induction a as [|x a IH]; intros H.
  - cbn [String.append strings.Cut]. unfold strings.HasPrefix. cbn [prefix].
    destruct (ascii_dec c c) as [_|Hn]; [|now elim Hn]. now destruct q.
  - cbn in H. apply andb_prop in H as [Hx H].
    cbn [String.append strings.Cut]. unfold strings.HasPrefix. cbn [prefix].
    destruct (ascii_dec c x) as [->|_].
    + rewrite Ascii.eqb_refl in Hx. discriminate Hx.
    + now rewrite (IH H).
Qed.

Lemma setPath_Path (u u' : url.URL) (p path : string) :
  url.unescape p url.encodePath = inl path ->
  url.setPath u p = inl u' -> url.Path u' = path /\ url.RawQuery u' = url.RawQuery u.
Proof.
  unfold url.setPath. intros ->. now intros [= <-].
Qed.

Lemma parse_with_query (u q : string) :
  noByte "?" u = true ->
  noByte "?" q = true -> url.stringContainsCTLByte q = false -> q <> EmptyString ->
  sameButQuery q (url.parse u) (url.parse (u ++ String "?" q)).
Proof.
  intros Hu Hq Hctl Hne. unfold url.parse.
  assert (Hc : url.stringContainsCTLByte (u ++ String "?" q) = url.stringContainsCTLByte u).
  { unfold url.stringContainsCTLByte in Hctl |- *. rewrite all_bytes_app.
    apply negb_false_iff in Hctl. cbn [all_bytes]. rewrite Hctl.
    now rewrite andb_true_r. }
  rewrite Hc. destruct (url.stringContainsCTLByte u); [reflexivity|].
  assert (Hstar : (u ++ String "?" q =? "*") = false).
  { destruct u as [|c [|d u]]; cbn [String.append String.eqb].
    - reflexivity.
    - apply andb_false_r.
    - apply andb_false_r. }
  rewrite Hstar. unfold url.getScheme. rewrite scanScheme_query.
  destruct (u =? "*") eqn:Hus.
  - apply String.eqb_eq in Hus. subst u.
    change (url.scanScheme 0 "*") with url.NoScheme. cbv beta iota zeta.
    rewrite (HasSuffix_query "*" q Hq Hne). cbn [andb].
    rewrite (Cut_at "?" "*" q eq_refl).
    eexists. split; [reflexivity|]. split; reflexivity.
  - destruct (url.scanScheme 0 u) as [|i|] eqn:Hs; [| |reflexivity].
    + rewrite (HasSuffix_query u q Hq Hne), (HasSuffix_absent u Hu). cbn [andb].
      rewrite (Cut_at "?" u q Hu), (Cut_absent "?" u Hu). cbv beta iota zeta.
      repeat match goal with
        | |- context [if ?b then _ else _] => destruct b
        | |- context [match ?x with _ => _ end] => destruct x eqn:?
        end;
      cbn [sameButQuery]; try reflexivity;
      try (eexists; split; [reflexivity|]; split; reflexivity);
      unfold url.setPath;
      try (destruct (url.unescape _ url.encodePath); cbn [sameButQuery]; [|reflexivity];
           eexists; split; [reflexivity|]; split; reflexivity).
    + destruct (scanScheme_ends _ _ _ Hs) as (a & b & -> & ->). cbn [Nat.add].
      rewrite append_assoc. cbn [String.append].
      rewrite !take_app_length, !skip_app_length.
      rewrite noByte_app in Hu. apply andb_prop in Hu as [_ Hb].
      cbn in Hb. change (noByte "?" b = true) in Hb.
      rewrite (HasSuffix_query b q Hq Hne), (HasSuffix_absent b Hb). cbn [andb].
      rewrite (Cut_at "?" b q Hb), (Cut_absent "?" b Hb). cbv beta iota zeta.
      repeat match goal with
        | |- context [if ?b then _ else _] => destruct b
        | |- context [match ?x with _ => _ end] => destruct x eqn:?
        end;
      cbn [sameButQuery]; try reflexivity;
      try (eexists; split; [reflexivity|]; split; reflexivity);
      unfold url.setPath;
      try (destruct (url.unescape _ url.encodePath); cbn [sameButQuery]; [|reflexivity];
           eexists; split; [reflexivity|]; split; reflexivity).
Qed.

Lemma Parse_with_query (u q : string) :
  noByte "?" u = true -> noByte "#" u = true ->
  noByte "?" q = true -> noByte "#" q = true ->
  url.stringContainsCTLByte q = false -> q <> EmptyString ->
  match url.Parse u with
  | inl U =>
      exists U', url.Parse (u ++ String "?" q) = inl U'
                 /\ url.Path U' = url.Path U /\ url.RawQuery U' = q
  | inr e =>
      url.Parse (u ++ String "?" q)
      = inr {| url.Op := "parse"; url.URL_ := u ++ String "?" q; url.Err := url.Err e |}
  end.
Proof.
  intros Hu Hu' Hq Hq' Hctl Hne. unfold url.Parse.
  assert (Hh : noByte "#" (u ++ String "?" q) = true).
  { rewrite noByte_app, Hu'. cbn. exact Hq'. }
  rewrite (Cut_absent "#" _ Hh), (Cut_absent "#" _ Hu'). cbn [String.eqb].
  pose proof (parse_with_query u q Hu Hq Hctl Hne) as H.
  destruct (url.parse u) as [U|e]; cbn [sameButQuery] in H.
  - destruct H as (U' & -> & HP & HQ). now exists U'.
  - now rewrite H.
Qed.

(** [encodeUrl] of a path followed by [?] and a query: the encoded path,
    then the query parsed and encoded again by [net/url]. *)
Lemma encodeUrl_with_query (u q : string) :
  noByte "?" u = true -> noByte "#" u = true ->
  noByte "?" q = true -> noByte "#" q = true ->
  url.stringContainsCTLByte q = false -> q <> EmptyString ->
  match encodeUrl u with
  | (path, None) =>
      encodeUrl (u ++ String "?" q)
      = (let query := url.Encode (url.ParseQuery q) in
         if negb (query =? EmptyString) then path ++ "?" ++ query else path, None)
  | (_, Some _) => exists e, encodeUrl (u ++ String "?" q) = (EmptyString, Some e)
  end.
Proof.
  intros Hu Hu' Hq Hq' Hctl Hne.
  pose proof (Parse_with_query u q Hu Hu' Hq Hq' Hctl Hne) as H.
  unfold encodeUrl. destruct (url.Parse u) as [U|e] eqn:HU.
  - destruct H as (U' & -> & HP & HQ).
    unfold url.Query. cbn [withRawPath url.RawQuery].
    rewrite (Parse_no_query _ _ Hu HU), HQ.
    change (url.Encode (url.ParseQuery EmptyString) =? EmptyString) with true. cbn [negb].
    replace (url.EscapedPath (withRawPath U' (EscapePath (url.Path U') false)))
      with (url.EscapedPath (withRawPath U (EscapePath (url.Path U) false)))
      by (unfold url.EscapedPath; cbn [withRawPath url.RawPath url.Path]; now rewrite HP).
    cbv zeta. now destruct (negb _).
  - rewrite H. eexists. reflexivity.
Qed.

(** ** The bodyless builder *)

Lemma encodeUrl_error (requestUrl out : string) (e : error) :
  encodeUrl requestUrl = (out, Some e) -> out = EmptyString.
Proof.
  unfold encodeUrl. destruct (url.Parse requestUrl); [|now intros [= <- _]].
  now destruct (negb _).
Qed.

Lemma lookup_app_cons_other {A : Type} (m1 m2 : list (string * A)) (k field : string) (v : A) :
  field <> k -> lookup field (m1 ++ (k, v) :: m2)%list = lookup field (m1 ++ m2)%list.
Proof.
  intros Hne. induction m1 as [|[k' v'] m1 IH]; cbn [List.app lookup].
  - destruct (String.eqb_spec k field) as [->|_]; [now elim Hne | reflexivity].
  - now rewrite IH.
Qed.

Section WithoutBody.

Context {float64 : Type}.
Variable formatFloat : float64 -> string.
Variable baseRequestFields : list string.
Variable json_Unmarshal : string -> list (string * value float64) + error.
Variable json_Marshal : list (string * value float64) -> string.
Variable Logger : Type.

Local Abbreviation accessMap' := (accessMap formatFloat baseRequestFields).
Local Abbreviation shouldIgnoreField' := (shouldIgnoreField baseRequestFields).
Local Abbreviation buildQueryParams' := (buildQueryParams formatFloat baseRequestFields).
Local Abbreviation BuildURL' :=
  (WithoutBodyBuilder_BuildURL formatFloat baseRequestFields json_Unmarshal).

(** What the bodyless [BuildURL] returns once the bag is decoded and the
    path parameters are in place. *)
Lemma WithoutBodyBuilder_BuildURL_result (b : WithoutBodyBuilder Logger)
    (url paramJson replacedUrl : string) (paramMap : list (string * value float64)) :
  json_Unmarshal paramJson = inl paramMap ->
  replaceUrlWithPathParam formatFloat url paramMap = (replacedUrl, None) ->
  fst (BuildURL' b url paramJson)
  = encodeUrl (let queryParams := buildQueryParams' paramMap url in
               if negb (queryParams =? EmptyString) then replacedUrl ++ "?" ++ queryParams
               else replacedUrl).
Proof.
  intros Hjson Hrep. unfold WithoutBodyBuilder_BuildURL. rewrite Hjson, Hrep. cbv zeta.
  destruct (encodeUrl _) as [out [e|]] eqn:E; cbn [fst]; [|reflexivity].
  now rewrite (encodeUrl_error _ _ _ E).
Qed.

Lemma shouldIgnoreField_plain (url field : string) :
  regexp.FindAllString url = [] ->
  pathParamName field ->
  includes baseRequestFields field = false ->
  shouldIgnoreField' url field = false.
Proof.
  intros Hfind Hname Hbase. unfold shouldIgnoreField. rewrite Hbase.
  destruct (strings.Contains url ("{" ++ field ++ "}")) eqn:Hc; [|reflexivity].
  pose proof (find_from_occurrence field Hname url 0 I Hc) as Hin.
  unfold regexp.FindAllString in Hfind. rewrite Hfind in Hin. elim Hin.
Qed.

(** C1: the bag [{"tags":[{"key":"a","value":"1"},{"key":"b","value":"2"}]}],
    whatever the order in which the two fields of each element are visited,
    on a template without placeholders and with [tags], [key] and [value]
    not reserved.  The flattening gives the two pairs of element 1 and then
    the two pairs of element 2; [BuildURL] hands them, joined by [&], to
    [encodeUrl] as the query of the template; encoded again by [net/url]
    they are [tags.1.key=a&tags.1.value=1&tags.2.key=b&tags.2.value=2], which
    is the query of the URL returned for every template that has no [?] or
    [#] of its own and parses. *)
Theorem C1_array_of_objects_flattening :
  forall (b : WithoutBodyBuilder Logger) (url paramJson : string)
         (e1 e2 : list (string * value float64)),
    regexp.FindAllString url = [] ->
    includes baseRequestFields "tags" = false ->
    includes baseRequestFields "key" = false ->
    includes baseRequestFields "value" = false ->
    Permutation e1 [("key", VString "a"); ("value", VString "1")] ->
    Permutation e2 [("key", VString "b"); ("value", VString "2")] ->
    json_Unmarshal paramJson = inl [("tags", VSlice [VMap e1; VMap e2])] ->
    exists p1 p2,
      Permutation p1 ["tags.1.key=a"; "tags.1.value=1"]
      /\ Permutation p2 ["tags.2.key=b"; "tags.2.value=2"]
      /\ accessMap' [("tags", VSlice [VMap e1; VMap e2])] url EmptyString [] = (p1 ++ p2)%list
      /\ fst (BuildURL' b url paramJson)
         = encodeUrl (url ++ "?" ++ strings.Join (p1 ++ p2)%list "&")
      /\ url.Encode (url.ParseQuery (strings.Join (p1 ++ p2)%list "&"))
         = "tags.1.key=a&tags.1.value=1&tags.2.key=b&tags.2.value=2"
      /\ (strings.Contains url "?" = false ->
          strings.Contains url "#" = false ->
          match encodeUrl url with
          | (path, None) =>
              fst (BuildURL' b url paramJson)
              = (path ++ "?tags.1.key=a&tags.1.value=1&tags.2.key=b&tags.2.value=2", None)
          | (_, Some _) => exists e, fst (BuildURL' b url paramJson) = (EmptyString, Some e)
          end).
Proof.
  intros b url paramJson e1 e2 Hfind Htags Hkey Hvalue H1 H2 Hjson.
  assert (Ht : shouldIgnoreField' url "tags" = false)
    by (apply shouldIgnoreField_plain; [assumption | now split | assumption]).
  assert (Hk : shouldIgnoreField' url "key" = false)
    by (apply shouldIgnoreField_plain; [assumption | now split | assumption]).
  assert (Hv : shouldIgnoreField' url "value" = false)
    by (apply shouldIgnoreField_plain; [assumption | now split | assumption]).
  assert (Hrep : replaceUrlWithPathParam formatFloat url [("tags", VSlice [VMap e1; VMap e2])]
                 = (url, None))
    by (unfold replaceUrlWithPathParam; now rewrite Hfind).
  pose proof (WithoutBodyBuilder_BuildURL_result b url paramJson url _ Hjson Hrep) as Hres.
  unfold buildQueryParams in Hres. cbv zeta in Hres.
  apply Permutation_sym, Permutation_length_2_inv in H1.
  apply Permutation_sym, Permutation_length_2_inv in H2.
  assert (Hacc : forall p1 p2 : list string,
             accessMap' [("tags", VSlice [VMap e1; VMap e2])] url EmptyString [] = (p1 ++ p2)%list ->
             noByte "?" (strings.Join (p1 ++ p2)%list "&") = true ->
             noByte "#" (strings.Join (p1 ++ p2)%list "&") = true ->
             url.stringContainsCTLByte (strings.Join (p1 ++ p2)%list "&") = false ->
             (strings.Join (p1 ++ p2)%list "&" =? EmptyString) = false ->
             url.Encode (url.ParseQuery (strings.Join (p1 ++ p2)%list "&"))
             = "tags.1.key=a&tags.1.value=1&tags.2.key=b&tags.2.value=2" ->
             accessMap' [("tags", VSlice [VMap e1; VMap e2])] url EmptyString [] = (p1 ++ p2)%list
             /\ fst (BuildURL' b url paramJson)
                = encodeUrl (url ++ "?" ++ strings.Join (p1 ++ p2)%list "&")
             /\ url.Encode (url.ParseQuery (strings.Join (p1 ++ p2)%list "&"))
                = "tags.1.key=a&tags.1.value=1&tags.2.key=b&tags.2.value=2"
             /\ (strings.Contains url "?" = false ->
                 strings.Contains url "#" = false ->
                 match encodeUrl url with
                 | (path, None) =>
                     fst (BuildURL' b url paramJson)
                     = (path ++ "?tags.1.key=a&tags.1.value=1&tags.2.key=b&tags.2.value=2",
                        None)
                 | (_, Some _) =>
                     exists e, fst (BuildURL' b url paramJson) = (EmptyString, Some e)
                 end)).
  { intros p1 p2 Ha Hq Hh Hctl Hne Henc.
    rewrite Ha, Hne in Hres. cbn [negb] in Hres.
    split; [exact Ha|]. split; [exact Hres|]. split; [exact Henc|].
    rewrite !Contains_byte. intros Hu Hu'.
    apply negb_false_iff in Hu. apply negb_false_iff in Hu'.
    assert (Hne' : strings.Join (p1 ++ p2)%list "&" <> EmptyString)
      by (intros E; rewrite E in Hne; discriminate Hne).
    pose proof (encodeUrl_with_query url _ Hu Hu' Hq Hh Hctl Hne') as Hw.
    destruct (encodeUrl url) as [path [e|]].
    - destruct Hw as [e' Hw]. exists e'. rewrite Hres. exact Hw.
    - rewrite Hres. cbv zeta in Hw. rewrite Henc in Hw. exact Hw. }
  assert (Hstep : forall f1 f2 : list (string * value float64),
             accessMap' [("tags", VSlice [VMap f1; VMap f2])] url EmptyString []
             = accessMap' f2 url "tags.2." (accessMap' f1 url "tags.1." [])).
  { intros f1 f2. rewrite accessMap_cons, Ht, accessValue_slice. reflexivity. }
  destruct H1 as [-> | ->], H2 as [-> | ->].
  - exists ["tags.1.key=a"; "tags.1.value=1"], ["tags.2.key=b"; "tags.2.value=2"].
    split; [apply Permutation_refl|]. split; [apply Permutation_refl|].
    apply Hacc; try reflexivity.
    rewrite Hstep. cbn [accessMap]. rewrite Hk, Hv. reflexivity.
  - exists ["tags.1.key=a"; "tags.1.value=1"], ["tags.2.value=2"; "tags.2.key=b"].
    split; [apply Permutation_refl|]. split; [apply perm_swap|].
    apply Hacc; try reflexivity.
    rewrite Hstep. cbn [accessMap]. rewrite Hk, Hv. reflexivity.
  - exists ["tags.1.value=1"; "tags.1.key=a"], ["tags.2.key=b"; "tags.2.value=2"].
    split; [apply perm_swap|]. split; [apply Permutation_refl|].
    apply Hacc; try reflexivity.
    rewrite Hstep. cbn [accessMap]. rewrite Hk, Hv. reflexivity.
  - exists ["tags.1.value=1"; "tags.1.key=a"], ["tags.2.value=2"; "tags.2.key=b"].
    split; [apply perm_swap|]. split; [apply perm_swap|].
    apply Hacc; try reflexivity.
    rewrite Hstep. cbn [accessMap]. rewrite Hk, Hv. reflexivity.
Qed.

End WithoutBody.

(** ** Null-valued fields *)

Section NullFields.

Context {float64 : Type}.
Variable formatFloat : float64 -> string.
Variable baseRequestFields : list string.
Variable json_Unmarshal : string -> list (string * value float64) + error.
Variable json_Marshal : list (string * value float64) -> string.
Variable Logger : Type.

Local Abbreviation accessMap' := (accessMap formatFloat baseRequestFields).
Local Abbreviation accessElements' := (accessElements formatFloat baseRequestFields).
Local Abbreviation buildQueryParams' := (buildQueryParams formatFloat baseRequestFields).

(** A null field adds nothing to the list, ignored or not. *)
Lemma accessMap_nil_field (m1 m2 : list (string * value float64)) (k url prefix : string)
    (resultList : list string) :
  accessMap' (m1 ++ (k, VNil) :: m2)%list url prefix resultList
  = accessMap' (m1 ++ m2)%list url prefix resultList.
Proof.
  rewrite !accessMap_app, accessMap_cons. cbn [accessValue].
  now destruct (shouldIgnoreField baseRequestFields url k).
Qed.

(** Substitution does not look at a field that is no placeholder of the
    template. *)
Lemma replaceMatches_nil_field (m1 m2 : list (string * value float64)) (k : string)
    (v : value float64) :
  forall (matches : list string) (url : string),
    (forall m, In m matches ->
               exists name, pathParamName name /\ m = placeholder name /\ name <> k) ->
    replaceMatches formatFloat matches url (m1 ++ (k, v) :: m2)%list
    = replaceMatches formatFloat matches url (m1 ++ m2)%list.
Proof.
  induction matches as [|m matches IH]; intros url Hall; [reflexivity|].
  destruct (Hall m (or_introl eq_refl)) as (name & Hname & -> & Hne).
  cbn [replaceMatches]. rewrite (field_of_placeholder _ Hname).
  rewrite (lookup_app_cons_other m1 m2 k name v Hne).
  destruct (lookup name (m1 ++ m2)%list); [|reflexivity].
  apply IH. intros m' Hm'. apply Hall. now right.
Qed.

(** C3, as amended.  In the bodyless builder a field whose value is null
    adds no pair: the flattening of a map (the bag, or an object that is an
    array element) is that of the map without the field, a null array
    element is passed over, and [BuildURL] returns what it returns for the
    bag without the field when the field is no placeholder of the template.
    The body-bearing builder's [BuildBody] removes base request fields
    only: a null field that is not reserved is in the map it encodes. *)
Theorem C3_null_fields :
  forall (b : WithoutBodyBuilder Logger) (bb : WithBodyBuilder Logger)
         (url k paramJson paramJson' : string) (m1 m2 : list (string * value float64)),
    json_Unmarshal paramJson = inl (m1 ++ (k, VNil) :: m2)%list ->
    json_Unmarshal paramJson' = inl (m1 ++ m2)%list ->
    (forall prefix resultList,
       accessMap' (m1 ++ (k, VNil) :: m2)%list url prefix resultList
       = accessMap' (m1 ++ m2)%list url prefix resultList)
    /\ (forall field prefix e i resultList,
          accessElements' url field prefix (VNil :: e) i resultList
          = accessElements' url field prefix e (S i) resultList)
    /\ buildQueryParams' (m1 ++ (k, VNil) :: m2)%list url
       = buildQueryParams' (m1 ++ m2)%list url
    /\ (strings.Contains url (placeholder k) = false ->
        fst (WithoutBodyBuilder_BuildURL formatFloat baseRequestFields json_Unmarshal
               b url paramJson)
        = fst (WithoutBodyBuilder_BuildURL formatFloat baseRequestFields json_Unmarshal
                 b url paramJson'))
    /\ fst (WithBodyBuilder_BuildBody baseRequestFields json_Unmarshal json_Marshal
              bb paramJson)
       = (json_Marshal (removeBaseRequestFields baseRequestFields
                          (m1 ++ (k, VNil) :: m2)%list), None)
    /\ (~ In k baseRequestFields ->
        In (k, VNil) (removeBaseRequestFields baseRequestFields (m1 ++ (k, VNil) :: m2)%list)).
Proof.
  intros b bb url k paramJson paramJson' m1 m2 Hjson Hjson'.
  split; [intros; apply accessMap_nil_field|].
  split; [reflexivity|].
  split; [unfold buildQueryParams; now rewrite accessMap_nil_field|].
  split; [|split].
  - intros Hk. unfold WithoutBodyBuilder_BuildURL. rewrite Hjson, Hjson'.
    unfold replaceUrlWithPathParam, buildQueryParams.
    rewrite accessMap_nil_field, replaceMatches_nil_field.
    { destruct (replaceMatches _ _ _ _) as [resultUrl [e|]]; [reflexivity|].
      now destruct (encodeUrl _) as [encodedUrl [e|]]. }
    intros m Hm. destruct (find_from_placeholder _ _ _ Hm) as (name & Hname & -> & Hc).
    exists name. split; [exact Hname|]. split; [reflexivity|].
    intros ->. rewrite Hc in Hk. discriminate Hk.
  - unfold WithBodyBuilder_BuildBody. now rewrite Hjson.
  - intros Hk. apply (proj2 (removeBaseRequestFields_In _ _ _ _)). split; [|exact Hk].
    apply in_or_app. right. now left.
Qed.

End NullFields.

(** ** Values that contain [&] *)

(** C4 at the bag [{"name":"a&b"}] on the template [/x], for every run-time:
    the pair is joined into the query unescaped, so [net/url] reads
    [name=a&b] as two pairs and the URL returned is [/x?b=&name=a]; parsed
    again it gives [a] for [name] and a key [b] the bag never had.  A value
    with a space survives: [{"name":"a b"}] gives [/x?name=a+b], which
    parses back to [a b]. *)
Theorem C4_ampersand_splits_the_value :
  (forall (float64 Logger : Type) (formatFloat : float64 -> string)
          (baseRequestFields : list string)
          (json_Unmarshal : string -> list (string * value float64) + error)
          (b : WithoutBodyBuilder Logger) (paramJson : string),
      includes baseRequestFields "name" = false ->
      (json_Unmarshal paramJson = inl [("name", VString "a&b")] ->
       fst (WithoutBodyBuilder_BuildURL formatFloat baseRequestFields json_Unmarshal
              b "/x" paramJson)
       = ("/x?b=&name=a", None))
      /\ (json_Unmarshal paramJson = inl [("name", VString "a b")] ->
          fst (WithoutBodyBuilder_BuildURL formatFloat baseRequestFields json_Unmarshal
                 b "/x" paramJson)
          = ("/x?name=a+b", None)))
  /\ match url.Parse "/x?b=&name=a" with
     | inl u => url.Query u = [("b", [EmptyString]); ("name", ["a"])]
     | inr _ => False
     end
  /\ match url.Parse "/x?name=a+b" with
     | inl u => url.Query u = [("name", ["a b"])]
     | inr _ => False
     end.
Proof.
  split; [|split; reflexivity].
  intros float64 Logger formatFloat baseRequestFields json_Unmarshal b paramJson Hname.
  assert (Hi : shouldIgnoreField baseRequestFields "/x" "name" = false)
    by (unfold shouldIgnoreField; now rewrite Hname).
  split; intros Hjson.
  - rewrite (WithoutBodyBuilder_BuildURL_result formatFloat baseRequestFields json_Unmarshal
               Logger b "/x" paramJson "/x" _ Hjson eq_refl).
    unfold buildQueryParams. rewrite accessMap_cons, Hi. reflexivity.
  - rewrite (WithoutBodyBuilder_BuildURL_result formatFloat baseRequestFields json_Unmarshal
               Logger b "/x" paramJson "/x" _ Hjson eq_refl).
    unfold buildQueryParams. rewrite accessMap_cons, Hi. reflexivity.
Qed.

(** ** Where the claims as first stated fail *)

(** C3 as first stated fails for the body: on the bag
    [{"name":"x","desc":null}], with neither field reserved, [BuildBody] of
    the body-bearing builder encodes the whole bag, [desc] included; so it is
    not true that a null field is never in the map that is encoded. *)
Lemma C3_body_keeps_null_field :
  (forall (float64 Logger : Type) (baseRequestFields : list string)
          (json_Unmarshal : string -> list (string * value float64) + error)
          (json_Marshal : list (string * value float64) -> string)
          (bb : WithBodyBuilder Logger) (paramJson : string),
      includes baseRequestFields "name" = false ->
      includes baseRequestFields "desc" = false ->
      json_Unmarshal paramJson = inl [("name", VString "x"); ("desc", VNil)] ->
      fst (WithBodyBuilder_BuildBody baseRequestFields json_Unmarshal json_Marshal
             bb paramJson)
      = (json_Marshal [("name", VString "x"); ("desc", VNil)], None))
  /\ ~ (forall (baseRequestFields : list string) (paramMap : list (string * value unit))
               (k : string),
          lookup k paramMap = Some VNil ->
          lookup k (removeBaseRequestFields baseRequestFields paramMap) = None).
Proof.
  split.
  - intros float64 Logger baseRequestFields json_Unmarshal json_Marshal bb paramJson
           Hname Hdesc Hjson.
    unfold WithBodyBuilder_BuildBody, removeBaseRequestFields. rewrite Hjson.
    cbn [filter fst]. now rewrite Hname, Hdesc.
  - intros H.
    specialize (H [] [("name", VString "x"); ("desc", VNil)] "desc" eq_refl).
    discriminate H.
Qed.



(** ** The theorems at concrete inputs *)

(** C1 at the template [/v1/tags], the fields of the second element visited
    in the other order. *)
Lemma C1_witness :
  fst (WithoutBodyBuilder_BuildURL printedFloat sampleFields
         (decodeTable [(tagsJson, tagsBag)]) {| WithoutBody_Logger := tt |}
         "/v1/tags" tagsJson)
  = ("/v1/tags?tags.1.key=a&tags.1.value=1&tags.2.key=b&tags.2.value=2", None).
Proof.
  destruct (C1_array_of_objects_flattening printedFloat sampleFields
              (decodeTable [(tagsJson, tagsBag)]) unit {| WithoutBody_Logger := tt |}
              "/v1/tags" tagsJson
              [("key", VString "a"); ("value", VString "1")]
              [("value", VString "2"); ("key", VString "b")]
              eq_refl eq_refl eq_refl eq_refl
              (Permutation_refl _) (perm_swap _ _ _) eq_refl)
    as (p1 & p2 & _ & _ & _ & _ & _ & H).
  exact (H eq_refl eq_refl).
Defined.

(** C2 at the template [/region/{regionId}] and the bag [{"name":"x"}]. *)
Lemma C2_witness :
  exists field,
    lookup field nameBag = None
    /\ fst (BuildURL printedFloat sampleFields (decodeTable [(nameJson, nameBag)])
              (GetParameterBuilder "GET" tt) "/region/{regionId}" nameJson)
       = (EmptyString, Some (missingPathParameter field)).
Proof.
  destruct (C2_missing_path_parameter printedFloat sampleFields
              (decodeTable [(nameJson, nameBag)]) unit (GetParameterBuilder "GET" tt)
              "/region/{regionId}" "regionId" nameJson nameBag
              (conj (fun H => eq_ind "regionId"
                                (fun s => match s with EmptyString => False | _ => True end)
                                I EmptyString H) eq_refl)
              eq_refl eq_refl eq_refl)
    as (field & _ & _ & Hl & _ & _ & Hb).
  exists field. split; [exact Hl | now rewrite Hb].
Defined.

(** C3 at the bag [{"name":"x","desc":null}]: the query is [name=x], and the
    body keeps [desc]. *)
Lemma C3_witness :
  fst (WithoutBodyBuilder_BuildURL printedFloat sampleFields
         (decodeTable [(nullJson, nullBag); (nameJson, nameBag)])
         {| WithoutBody_Logger := tt |} "/v1/items" nullJson)
  = ("/v1/items?name=x", None)
  /\ In ("desc", VNil) (removeBaseRequestFields sampleFields nullBag).
Proof.
  destruct (C3_null_fields printedFloat sampleFields
              (decodeTable [(nullJson, nullBag); (nameJson, nameBag)]) sampleMarshal unit
              {| WithoutBody_Logger := tt |} {| WithBody_Logger := tt |}
              "/v1/items" "desc" nullJson nameJson [("name", VString "x")] []
              eq_refl eq_refl)
    as (_ & _ & _ & Hurl & _ & Hin).
  split.
  - rewrite (Hurl eq_refl). reflexivity.
  - apply Hin. cbn. intros [H|[H|[H|[H|[]]]]]; discriminate H.
Defined.


(** C8 at the bag [{"filter":{"b":"2","a":null}}]. *)
Lemma C8_witness :
  accessMap printedFloat sampleFields
    [("filter", VMap [("b", VString "2"); ("a", VNil)])] "/v1/items" EmptyString []
  = ["filter=map[a:<nil> b:2]"].
Proof.
  exact (proj1 (proj2 (C8_bare_object_one_pair printedFloat sampleFields
                         "/v1/items" "filter" EmptyString [("b", VString "2"); ("a", VNil)]
                         [] [] [] eq_refl))).
Defined.

(** C9 at the bag [{"a":[{"b":[{"c":"x"}]}]}]. *)
Lemma C9_witness :
  accessMap printedFloat sampleFields
    [("a", VSlice [VMap [("b", VSlice [VMap [("c", VString "x")]])]])] "/v1/items" EmptyString []
  = ["b.1.c=x"].
Proof.
  exact (proj2 (C9_nested_prefix_dropped printedFloat sampleFields
                  "/v1/items" "a" "b" "c" "x" EmptyString "ignored"
                  [VMap [("b", VSlice [VMap [("c", VString "x")]])]] []
                  eq_refl eq_refl eq_refl eq_refl)).
Defined.

(** C10 at the array [[3, true, "s"]] and at the top-level number [3]. *)
Lemma C10_witness :
  accessMap printedFloat sampleFields
    [("ids", VSlice [VFloat64 "3"; VBool true; VString "s"])] "/v1/items" EmptyString []
  = ["ids.1=%!s(float64=3)"; "ids.2=%!s(bool=true)"; "ids.3=s"]
  /\ accessMap printedFloat sampleFields [("ids", VFloat64 "3")] "/v1/items" EmptyString []
     = ["ids=3"].
Proof.
  exact (C10_array_scalars_use_string_verb printedFloat sampleFields
           "/v1/items" "ids" EmptyString [VFloat64 "3"; VBool true; VString "s"] (VFloat64 "3") []
           eq_refl eq_refl eq_refl).
Defined.


(** * More of the code *)

(** ** Outcomes of the builders *)

Section Outcomes.

Context {float64 : Type}.
Variable formatFloat : float64 -> string.
Variable baseRequestFields : list string.
Variable json_Unmarshal : string -> list (string * value float64) + error.
Variable json_Marshal : list (string * value float64) -> string.
Variable Logger : Type.

(** When the loop of [replaceUrlWithPathParam] fails, it returns the empty
    string and names a field that the bag lacks. *)
Lemma replaceMatches_error (paramMap : list (string * value float64)) :
  forall (matches : list string) (url r : string) (e : error),
    replaceMatches formatFloat matches url paramMap = (r, Some e) ->
    r = EmptyString
    /\ exists field, e = missingPathParameter field /\ lookup field paramMap = None.
Proof.
  induction matches as [|m matches IH]; intros url r e H; [discriminate H|].
  cbn [replaceMatches] in H.
  destruct (lookup (strings.TrimRight (strings.TrimLeft m "{") "}") paramMap) as [v|] eqn:Hl.
  - exact (IH _ _ _ H).
  - injection H as <- <-. split; [reflexivity|]. eexists. split; [reflexivity | exact Hl].
Qed.

(** X1: Every way [BuildURL] and [BuildBody] can end, for either builder.  With
    an error the string returned is empty, never a partial URL or body: the
    error is the decoder's, or names a path parameter that the bag lacks
    (both logged once, as an error), or comes from [net/url] (not logged).
    Without an error the bag was decoded and every placeholder was filled,
    and the URL or body returned is logged. *)
Theorem builder_outcomes :
  forall (pb : ParameterBuilder Logger) (url paramJson : string),
    match BuildURL formatFloat baseRequestFields json_Unmarshal pb url paramJson with
    | ((s, Some e), log) =>
        s = EmptyString
        /\ ((json_Unmarshal paramJson = inr e /\ log = [(LogError, [ErrorText e])])
            \/ (exists paramMap field,
                  json_Unmarshal paramJson = inl paramMap
                  /\ e = missingPathParameter field /\ lookup field paramMap = None
                  /\ log = [(LogError, [ErrorText e])])
            \/ (exists ue, e = urlError ue /\ log = []))
    | ((s, None), log) =>
        exists paramMap replacedUrl,
          json_Unmarshal paramJson = inl paramMap
          /\ replaceUrlWithPathParam formatFloat url paramMap = (replacedUrl, None)
          /\ In (LogInfo, [Text ("URL=" ++ s)]) log
    end
    /\ match BuildBody baseRequestFields json_Unmarshal json_Marshal pb paramJson with
       | ((s, Some e), log) =>
           s = EmptyString /\ json_Unmarshal paramJson = inr e
           /\ log = [(LogError, [ErrorText e])]
       | ((s, None), log) =>
           log = [] /\ s = EmptyString
           \/ exists paramMap,
                json_Unmarshal paramJson = inl paramMap
                /\ log = [(LogInfo, [Text "Body="; Text s])]
       end.
Proof.
  intros pb url paramJson. split.
  - destruct pb as [b|b]; cbn [BuildURL];
      unfold WithoutBodyBuilder_BuildURL, WithBodyBuilder_BuildURL;
      (destruct (json_Unmarshal paramJson) as [paramMap|e0] eqn:Hj;
       [|split; [reflexivity | left; now split]]);
      (destruct (replaceUrlWithPathParam formatFloat url paramMap) as [r [e1|]] eqn:Hr;
       [destruct (replaceMatches_error _ _ _ _ _ Hr) as (_ & field & -> & Hl);
        split; [reflexivity|]; right; left; exists paramMap, field; now repeat split|]).
    + cbv zeta. destruct (encodeUrl _) as [out [e2|]] eqn:He.
      * split; [reflexivity|]. right; right.
        unfold encodeUrl in He. destruct (url.Parse _) as [u|ue].
        -- now destruct (negb _).
        -- injection He as _ <-. now exists ue.
      * exists paramMap, r. split; [reflexivity|]. split; [exact Hr|]. right. now left.
    + destruct (encodeUrl r) as [out [e2|]] eqn:He.
      * split; [reflexivity|]. right; right.
        unfold encodeUrl in He. destruct (url.Parse _) as [u|ue].
        -- now destruct (negb _).
        -- injection He as _ <-. now exists ue.
      * exists paramMap, r. split; [reflexivity|]. split; [exact Hr|]. now left.
  - destruct pb as [b|b]; cbn [BuildBody].
    + left. now split.
    + unfold WithBodyBuilder_BuildBody.
      destruct (json_Unmarshal paramJson) as [paramMap|e0]; [|now repeat split].
      right. now exists paramMap.
Qed.

(** The loop of [replaceUrlWithPathParam] succeeds when the bag has the
    field of every match. *)
Lemma replaceMatches_present (paramMap : list (string * value float64)) :
  forall (matches : list string) (url : string),
    (forall m, In m matches ->
               exists name, pathParamName name /\ m = placeholder name
                            /\ lookup name paramMap <> None) ->
    exists r, replaceMatches formatFloat matches url paramMap = (r, None).
Proof.
  induction matches as [|m matches IH]; intros url Hall; [now exists url|].
  destruct (Hall m (or_introl eq_refl)) as (name & Hname & -> & Hl).
  cbn [replaceMatches]. rewrite (field_of_placeholder _ Hname).
  destruct (lookup name paramMap) as [v|]; [|now elim Hl].
  apply IH. intros m' Hm'. apply Hall. now right.
Qed.

(** X2: [replaceUrlWithPathParam] returns without error exactly when the bag
    has a key for every placeholder of the template (a non-empty word of
    letters, digits, [-] and [_] in braces); braces around anything else are
    no placeholder and ask for no key. *)
Theorem replaceUrlWithPathParam_succeeds_iff :
  forall (url : string) (paramMap : list (string * value float64)),
    (exists r, replaceUrlWithPathParam formatFloat url paramMap = (r, None))
    <-> (forall name, pathParamName name ->
                      strings.Contains url (placeholder name) = true ->
                      lookup name paramMap <> None).
Proof.
  intros url paramMap. unfold replaceUrlWithPathParam. split.
  - intros [r Hr] name Hname Hc Hl.
    destruct (replaceMatches_missing formatFloat paramMap (regexp.FindAllString url) url)
      as (field & _ & _ & _ & Herr).
    + intros m Hm. destruct (find_from_placeholder _ _ _ Hm) as (n & Hn & -> & _).
      now exists n.
    + exists name. split; [exact Hname|]. split; [|exact Hl].
      now apply find_from_occurrence.
    + rewrite Herr in Hr. discriminate Hr.
  - intros Hall. apply replaceMatches_present.
    intros m Hm. destruct (find_from_placeholder _ _ _ Hm) as (n & Hn & -> & Hc).
    exists n. split; [exact Hn|]. split; [reflexivity|]. now apply Hall.
Qed.

(** X3: A field that [replaceUrlWithPathParam] substitutes into the path is one
    that [shouldIgnoreField] keeps out of the query, and conversely for
    names of the class: both look for the same placeholder.  Such a field
    adds no pair wherever it stands, in the bag or in an object inside an
    array, whatever its value. *)
Theorem path_parameter_not_in_query :
  forall (url name : string),
    pathParamName name ->
    (In (placeholder name) (regexp.FindAllString url)
     <-> strings.Contains url ("{" ++ name ++ "}") = true)
    /\ (In (placeholder name) (regexp.FindAllString url) ->
        shouldIgnoreField baseRequestFields url name = true
        /\ forall (m1 m2 : list (string * value float64)) (v : value float64)
                  (prefix : string) (resultList : list string),
             accessMap formatFloat baseRequestFields (m1 ++ (name, v) :: m2)%list url prefix
               resultList
             = accessMap formatFloat baseRequestFields (m1 ++ m2)%list url prefix resultList).
Proof.
  intros url name Hname.
  assert (Hiff : In (placeholder name) (regexp.FindAllString url)
                 <-> strings.Contains url ("{" ++ name ++ "}") = true).
  { split.
    - intros Hin. destruct (find_from_placeholder _ _ _ Hin) as (n & _ & _ & Hc). exact Hc.
    - intros Hc. now apply find_from_occurrence. }
  split; [exact Hiff|].
  intros Hin. apply Hiff in Hin.
  assert (Hi : shouldIgnoreField baseRequestFields url name = true)
    by (unfold shouldIgnoreField; now rewrite Hin).
  split; [exact Hi|].
  intros m1 m2 v prefix resultList.
  now rewrite !accessMap_app, accessMap_cons, Hi.
Qed.

(** X4: The URL of the body-bearing builder depends on the path parameters
    only: a field that is no placeholder of the template can be added to
    the bag or removed from it without changing what [BuildURL] returns and
    logs. *)
Theorem WithBodyBuilder_BuildURL_other_fields :
  forall (b : WithBodyBuilder Logger) (url k paramJson paramJson' : string)
         (v : value float64) (m1 m2 : list (string * value float64)),
    strings.Contains url (placeholder k) = false ->
    json_Unmarshal paramJson = inl (m1 ++ (k, v) :: m2)%list ->
    json_Unmarshal paramJson' = inl (m1 ++ m2)%list ->
    WithBodyBuilder_BuildURL formatFloat json_Unmarshal b url paramJson
    = WithBodyBuilder_BuildURL formatFloat json_Unmarshal b url paramJson'.
Proof.
  intros b url k paramJson paramJson' v m1 m2 Hk Hj Hj'.
  unfold WithBodyBuilder_BuildURL, replaceUrlWithPathParam. rewrite Hj, Hj'.
  rewrite replaceMatches_nil_field; [reflexivity|].
  intros m Hm. destruct (find_from_placeholder _ _ _ Hm) as (name & Hname & -> & Hc).
  exists name. split; [exact Hname|]. split; [reflexivity|].
  intros ->. rewrite Hc in Hk. discriminate Hk.
Qed.

End Outcomes.

(** ** The shape of the flattened list *)

Section FlatteningStructure.

Context {float64 : Type}.
Variable formatFloat : float64 -> string.
Variable baseRequestFields : list string.
Variable json_Unmarshal : string -> list (string * value float64) + error.
Variable Logger : Type.

Local Abbreviation accessMap' := (accessMap formatFloat baseRequestFields).
Local Abbreviation accessValue' := (accessValue formatFloat baseRequestFields).
Local Abbreviation accessElements' := (accessElements formatFloat baseRequestFields).
Local Abbreviation shouldIgnoreField' := (shouldIgnoreField baseRequestFields).

Lemma accessMap_grows_entries (url : string) (m : list (string * value float64)) :
  Forall (fun kv => forall k p rl,
            accessValue' url k (snd kv) p rl = (rl ++ accessValue' url k (snd kv) p [])%list) m ->
  forall p rl, accessMap' m url p rl = (rl ++ accessMap' m url p [])%list.
Proof.
  induction 1 as [|[k v] m Hv _ IH]; intros p rl.
  - cbn. now rewrite app_nil_r.
  - rewrite !accessMap_cons. cbn [snd] in Hv.
    destruct (shouldIgnoreField' url k); [apply IH|].
    rewrite IH, (IH p (accessValue' url k v p [])), Hv. now rewrite app_assoc.
Qed.

Lemma accessElements_grows_elements (url k prefix : string) (e : list (value float64)) :
  Forall (fun n => match n with
                   | VMap f => forall p rl, accessMap' f url p rl = (rl ++ accessMap' f url p [])%list
                   | _ => True
                   end) e ->
  forall i rl,
    accessElements' url k prefix e i rl = (rl ++ accessElements' url k prefix e i [])%list.
Proof.
  induction 1 as [|n e Hn _ IH]; intros i rl.
  - cbn. now rewrite app_nil_r.
  - cbn [accessElements].
    destruct n as [|b|x|s|l|f];
      try (rewrite IH; unfold append; rewrite (IH _ ([] ++ _)%list); cbn [List.app];
           now rewrite <- app_assoc).
    + apply IH.
    + rewrite IH, Hn, (IH _ (accessMap' f url _ [])). now rewrite app_assoc.
Qed.

(** The loops only append: what is already in the list stays, in place. *)
Lemma accessValue_grows (url : string) (v : value float64) :
  (forall k p rl, accessValue' url k v p rl = (rl ++ accessValue' url k v p [])%list)
  /\ match v with
     | VMap f => forall p rl, accessMap' f url p rl = (rl ++ accessMap' f url p [])%list
     | _ => True
     end.
Proof.
  induction v as [|b|x|s|e IH|m IH] using value_nested_ind.
  - split; [|exact I]. intros. cbn. now rewrite app_nil_r.
  - split; [|exact I]. reflexivity.
  - split; [|exact I]. reflexivity.
  - split; [|exact I]. reflexivity.
  - split; [|exact I]. intros k p rl. rewrite !accessValue_slice.
    apply accessElements_grows_elements.
    apply (Forall_impl _ (fun n H => proj2 H) IH).
  - split; [reflexivity|].
    apply accessMap_grows_entries.
    apply (Forall_impl _ (fun kv H => proj1 H) IH).
Qed.

Lemma accessMap_grows (url : string) (m : list (string * value float64)) (p : string)
    (rl : list string) :
  accessMap' m url p rl = (rl ++ accessMap' m url p [])%list.
Proof. exact (proj2 (accessValue_grows url (VMap m)) p rl). Qed.

Lemma accessElements_grows (url k prefix : string) (e : list (value float64)) (i : nat)
    (rl : list string) :
  accessElements' url k prefix e i rl = (rl ++ accessElements' url k prefix e i [])%list.
Proof.
  apply accessElements_grows_elements. apply Forall_forall. intros n _.
  destruct n; try exact I. intros p rl'. apply accessMap_grows.
Qed.

Lemma accessMap_flat_map (m : list (string * value float64)) (url prefix : string) :
  accessMap' m url prefix []
  = flat_map (fun kv => if shouldIgnoreField' url (fst kv) then []
                        else accessValue' url (fst kv) (snd kv) prefix []) m.
Proof.
  induction m as [|[k v] m IH]; [reflexivity|].
  rewrite accessMap_cons, accessMap_grows, IH. cbn [flat_map fst snd].
  now destruct (shouldIgnoreField' url k).
Qed.

(** X5: [accessMap] never drops or reorders what it was given: it returns its
    [resultList] followed by what each entry adds, entry by entry in the
    order of the loop; an ignored entry adds nothing, any other entry adds
    what the type switch on its value gives from the empty list.  The same
    holds for the loop over the elements of an array. *)
Theorem accessMap_appends_per_entry :
  forall (m : list (string * value float64)) (e : list (value float64))
         (url k prefix : string) (i : nat) (resultList : list string),
    accessMap' m url prefix resultList
    = (resultList
       ++ flat_map (fun kv => if shouldIgnoreField' url (fst kv) then []
                              else accessValue' url (fst kv) (snd kv) prefix []) m)%list
    /\ accessElements' url k prefix e i resultList
       = (resultList ++ accessElements' url k prefix e i [])%list.
Proof.
  intros m e url k prefix i resultList. split.
  - now rewrite accessMap_grows, accessMap_flat_map.
  - apply accessElements_grows.
Qed.

(** X6: Go leaves the order of [range] over a map open.  Whatever order the
    loop takes over the bag, [accessMap] emits the same pairs, the same
    number of times: only their order in the list follows the loop. *)
Theorem accessMap_order_of_range :
  forall (m m' : list (string * value float64)) (url prefix : string)
         (resultList : list string),
    Permutation m m' ->
    Permutation (accessMap' m url prefix resultList) (accessMap' m' url prefix resultList).
Proof.
  intros m m' url prefix resultList H.
  rewrite (accessMap_grows url m), (accessMap_grows url m'), !accessMap_flat_map.
  apply Permutation_app_head. now apply Permutation_flat_map.
Qed.

End FlatteningStructure.

(** ** Pairs and the empty query *)

Lemma Join_nil_inv (l : list string) (sep : string) :
  strings.Join l sep = EmptyString ->
  Forall (fun s => s <> EmptyString) l -> l = [].
Proof.
  unfold strings.Join. destruct l as [|x [|y l]]; intros H Hne; [reflexivity| |].
  - cbn in H. apply Forall_inv in Hne. now elim Hne.
  - cbn [String.concat] in H. apply Forall_inv in Hne.
    destruct x; [now elim Hne | discriminate H].
Qed.

Section QueryShape.

Context {float64 : Type}.
Variable formatFloat : float64 -> string.
Variable baseRequestFields : list string.
Variable json_Unmarshal : string -> list (string * value float64) + error.
Variable Logger : Type.

Local Abbreviation accessMap' := (accessMap formatFloat baseRequestFields).
Local Abbreviation accessValue' := (accessValue formatFloat baseRequestFields).
Local Abbreviation accessElements' := (accessElements formatFloat baseRequestFields).
Local Abbreviation buildQueryParams' := (buildQueryParams formatFloat baseRequestFields).

Local Abbreviation hasEquals := (fun pair : string => strings.Contains pair "=" = true).

Lemma pair_hasEquals (key text : string) : hasEquals (key ++ "=" ++ text).
Proof. apply (Contains_intro key "=" text). Qed.

Lemma accessElements_hasEquals (url k prefix : string) (e : list (value float64)) :
  Forall (fun n => match n with
                   | VMap f => forall p, Forall hasEquals (accessMap' f url p [])
                   | _ => True
                   end) e ->
  forall i, Forall hasEquals (accessElements' url k prefix e i []).
Proof.
  induction 1 as [|n e Hn _ IH]; intros i; [constructor|].
  cbn [accessElements]. rewrite accessElements_grows. apply Forall_app. split; [|apply IH].
  destruct n as [|b|x|s|l|f]; try (now constructor); try apply Hn;
    (constructor; [|constructor]);
    rewrite <- !append_assoc; rewrite append_assoc; apply pair_hasEquals.
Qed.

Lemma accessValue_hasEquals (url : string) (v : value float64) :
  (forall k p, Forall hasEquals (accessValue' url k v p []))
  /\ match v with
     | VMap f => forall p, Forall hasEquals (accessMap' f url p [])
     | _ => True
     end.
Proof.
  induction v as [|b|x|s|e IH|m IH] using value_nested_ind.
  - split; [|exact I]. constructor.
  - split; [|exact I]. intros k p. constructor; [|constructor].
    rewrite <- append_assoc. apply pair_hasEquals.
  - split; [|exact I]. intros k p. constructor; [|constructor].
    rewrite <- append_assoc. apply pair_hasEquals.
  - split; [|exact I]. intros k p. constructor; [|constructor].
    rewrite <- append_assoc. apply pair_hasEquals.
  - split; [|exact I]. intros k p. rewrite accessValue_slice.
    apply accessElements_hasEquals.
    apply (Forall_impl _ (fun n H => proj2 H) IH).
  - assert (Hm : forall p, Forall hasEquals (accessMap' m url p [])).
    { intros p. rewrite accessMap_flat_map. apply Forall_flat_map.
      eapply Forall_impl; [|exact IH]. cbv beta. intros kv [H _].
      destruct (shouldIgnoreField baseRequestFields url (fst kv)); [constructor | apply H]. }
    split; [|exact Hm]. intros k p. constructor; [|constructor].
    rewrite <- append_assoc. apply pair_hasEquals.
Qed.

Lemma accessMap_hasEquals (m : list (string * value float64)) (url prefix : string) :
  Forall hasEquals (accessMap' m url prefix []).
Proof. exact (proj2 (accessValue_hasEquals url (VMap m)) prefix). Qed.

(** X7: Every string that [accessMap] emits, at any depth, has a [=]: it is a
    pair, never a bare key or an empty string.  So the query that
    [buildQueryParams] joins is empty exactly when no pair was emitted. *)
Theorem emitted_pairs_have_equals :
  forall (m : list (string * value float64)) (url prefix : string),
    Forall (fun pair => strings.Contains pair "=" = true) (accessMap' m url prefix [])
    /\ (buildQueryParams' m url = EmptyString <-> accessMap' m url EmptyString [] = []).
Proof.
  intros m url prefix. split; [apply accessMap_hasEquals|].
  unfold buildQueryParams. split.
  - intros H. apply (Join_nil_inv _ _ H).
    eapply Forall_impl; [|exact (accessMap_hasEquals m url EmptyString)].
    cbv beta. intros s Hs ->. discriminate Hs.
  - now intros ->.
Qed.

Lemma accessMap_quiet (m : list (string * value float64)) (url prefix : string) :
  forallb (quietEntry baseRequestFields url) m = true ->
  accessMap' m url prefix [] = [].
Proof.
  induction m as [|[k v] m IH]; intros H; [reflexivity|].
  cbn [forallb] in H. apply andb_prop in H as [Hq H].
  rewrite accessMap_cons. unfold quietEntry in Hq. cbn [fst snd] in Hq.
  destruct (shouldIgnoreField baseRequestFields url k); [now apply IH|].
  cbn [orb] in Hq. destruct v as [|b|x|s|[|n e]|f]; try discriminate Hq; now apply IH.
Qed.

(** X8: A bag that has only path parameters, base fields, nulls and empty arrays
    (the empty bag among them) gives no query: the bodyless [BuildURL]
    appends no [?] and returns [encodeUrl] of the template with its
    placeholders filled, which has a [?] only if that already has one. *)
Theorem bodyless_BuildURL_without_query :
  forall (b : WithoutBodyBuilder Logger) (url paramJson replacedUrl : string)
         (m : list (string * value float64)),
    json_Unmarshal paramJson = inl m ->
    replaceUrlWithPathParam formatFloat url m = (replacedUrl, None) ->
    forallb (quietEntry baseRequestFields url) m = true ->
    buildQueryParams' m url = EmptyString
    /\ fst (WithoutBodyBuilder_BuildURL formatFloat baseRequestFields json_Unmarshal
              b url paramJson)
       = encodeUrl replacedUrl
    /\ (strings.Contains replacedUrl "?" = false ->
        forall out,
          fst (WithoutBodyBuilder_BuildURL formatFloat baseRequestFields json_Unmarshal
                 b url paramJson) = (out, None) ->
          strings.Contains out "?" = false).
Proof.
  intros b url paramJson replacedUrl m Hj Hr Hq.
  assert (Hb : buildQueryParams' m url = EmptyString)
    by (unfold buildQueryParams; now rewrite accessMap_quiet).
  assert (Hu : fst (WithoutBodyBuilder_BuildURL formatFloat baseRequestFields json_Unmarshal
                      b url paramJson) = encodeUrl replacedUrl).
  { rewrite (WithoutBodyBuilder_BuildURL_result formatFloat baseRequestFields json_Unmarshal
               Logger b url paramJson replacedUrl m Hj Hr).
    cbv zeta. now rewrite Hb. }
  split; [exact Hb|]. split; [exact Hu|].
  intros Hc out Hout. rewrite Hu in Hout. now apply (encodeUrl_no_query replacedUrl).
Qed.

End QueryShape.

(** ** What [encodeUrl] lets through *)

Lemma unescaped_path_byte (c : ascii) :
  url.shouldEscape c url.encodePath = false -> urlByte c = true.
Proof.
  destruct c as [[] [] [] [] [] [] [] []]; vm_compute; intros H;
    try reflexivity; discriminate H.
Qed.

Lemma unescaped_query_byte (c : ascii) :
  url.shouldEscape c url.encodeQueryComponent = false -> urlByte c = true.
Proof.
  destruct c as [[] [] [] [] [] [] [] []]; vm_compute; intros H;
    try reflexivity; discriminate H.
Qed.

Lemma valid_path_byte (c : ascii) :
  byte_of "!$&'()*+,;=:@[]%" c || negb (url.shouldEscape c url.encodePath) = true ->
  urlByte c = true.
Proof.
  destruct c as [[] [] [] [] [] [] [] []]; vm_compute; intros H;
    try reflexivity; discriminate H.
Qed.

Lemma upperhex_urlByte (n : nat) : urlByte (url.upperhex n) = true.
Proof.
  unfold url.upperhex. do 17 (destruct n as [|n]; [reflexivity|]). reflexivity.
Qed.

Lemma escape_path_bytes (s : string) :
  all_bytes urlByte (url.escape s url.encodePath) = true.
Proof.
  induction s as [|c s IH]; [reflexivity|].
  cbn [url.escape]. destruct (url.shouldEscape c url.encodePath) eqn:Hc; cbn [all_bytes].
  - now rewrite !upperhex_urlByte, IH.
  - now rewrite (unescaped_path_byte _ Hc), IH.
Qed.

Lemma escape_query_bytes (s : string) :
  all_bytes urlByte (url.escape s url.encodeQueryComponent) = true.
Proof.
  induction s as [|c s IH]; [reflexivity|].
  cbn [url.escape]. destruct (c =? " ")%char; [cbn [all_bytes]; now rewrite IH|].
  destruct (url.shouldEscape c url.encodeQueryComponent) eqn:Hc; cbn [all_bytes].
  - now rewrite !upperhex_urlByte, IH.
  - now rewrite (unescaped_query_byte _ Hc), IH.
Qed.

Lemma validEncoded_path_bytes (s : string) :
  url.validEncoded s url.encodePath = true -> all_bytes urlByte s = true.
Proof.
  induction s as [|c s IH]; intros H; [reflexivity|].
  cbn [url.validEncoded] in H. apply andb_prop in H as [Hc H].
  cbn [all_bytes]. now rewrite (valid_path_byte _ Hc), (IH H).
Qed.

Lemma EscapedPath_bytes (u : url.URL) : all_bytes urlByte (url.EscapedPath u) = true.
Proof.
  unfold url.EscapedPath.
  destruct (negb (url.RawPath u =? EmptyString)); cbn [andb];
    [destruct (url.validEncoded (url.RawPath u) url.encodePath) eqn:Hv; cbn [andb];
     [destruct (url.unescape (url.RawPath u) url.encodePath) as [p|];
      [destruct (p =? url.Path u);
       [now apply validEncoded_path_bytes|]|]|]|];
    (destruct (url.Path u =? "*"); [reflexivity | apply escape_path_bytes]).
Qed.

Lemma Join_bytes (p : ascii -> bool) (l : list string) (sep : string) :
  Forall (fun s => all_bytes p s = true) l ->
  all_bytes p sep = true ->
  all_bytes p (strings.Join l sep) = true.
Proof.
  unfold strings.Join. intros Hl Hsep.
  induction Hl as [|x l Hx Hl IH]; [reflexivity|].
  cbn [String.concat]. destruct l as [|y l]; [exact Hx|].
  now rewrite !all_bytes_app, Hx, Hsep, IH.
Qed.

Lemma Encode_bytes (v : url.Values) : all_bytes urlByte (url.Encode v) = true.
Proof.
  unfold url.Encode. apply Join_bytes; [|reflexivity].
  apply Forall_flat_map, Forall_forall. intros kv _.
  apply Forall_forall. intros s Hs. apply in_map_iff in Hs as (x & <- & _).
  unfold url.QueryEscape. rewrite !all_bytes_app, !escape_query_bytes. reflexivity.
Qed.

(** X9: Whatever the template and the values substituted into it hold, the
    string [encodeUrl] returns is made of letters, digits and the marks and
    reserved characters of a URL only: spaces, quotes, braces, [#], control
    bytes and bytes above 127 come out percent-escaped or not at all. *)
Theorem encodeUrl_output_bytes :
  forall (requestUrl : string),
    all_bytes urlByte (fst (encodeUrl requestUrl)) = true.
Proof.
  intros requestUrl. unfold encodeUrl.
  destruct (url.Parse requestUrl) as [u|e]; [|reflexivity].
  destruct (negb _); cbn [fst]; [|apply EscapedPath_bytes].
  now rewrite !all_bytes_app, EscapedPath_bytes, Encode_bytes.
Qed.

Lemma setFragment_same_request (u u' : url.URL) (f : string) :
  url.setFragment u f = inl u' ->
  url.Path u' = url.Path u /\ url.RawQuery u' = url.RawQuery u.
Proof.
  unfold url.setFragment. destruct (url.unescape f url.encodeFragment); [|discriminate].
  now intros [= <-].
Qed.

(** X10: [encodeUrl] cuts the URL at the first [#]: what follows it (the rest of
    the path, and the query that the bodyless builder appends) is not in
    the result.  When what follows is no valid fragment, a URL that would
    otherwise be encoded is refused with an escape error. *)
Theorem encodeUrl_drops_fragment :
  forall (u f : string),
    strings.Contains u "#" = false ->
    match url.unescape f url.encodeFragment with
    | inl _ => encodeUrl (u ++ String "#" f) = encodeUrl u
    | inr e =>
        match url.Parse u with
        | inl _ =>
            encodeUrl (u ++ String "#" f)
            = (EmptyString,
               Some (urlError {| url.Op := "parse"; url.URL_ := u ++ String "#" f;
                                 url.Err := e |}))
        | inr _ => encodeUrl (u ++ String "#" f) = encodeUrl u
        end
    end.
Proof.
  intros u f Hc. rewrite Contains_byte in Hc. apply negb_false_iff in Hc.
  unfold encodeUrl, url.Parse.
  rewrite (Cut_at "#" u f Hc), (Cut_absent "#" u Hc). cbn [String.eqb].
  destruct (url.parse u) as [u0|e0].
  - destruct (f =? EmptyString) eqn:Hf.
    + apply String.eqb_eq in Hf. subst f. reflexivity.
    + unfold url.setFragment.
      destruct (url.unescape f url.encodeFragment) as [frag|e]; reflexivity.
  - now destruct (url.unescape f url.encodeFragment).
Qed.

(** ** Arrays of numbers *)

Lemma all_bytes_impl (p q : ascii -> bool) (s : string) :
  (forall c, p c = true -> q c = true) -> all_bytes p s = true -> all_bytes q s = true.
Proof.
  intros Hpq. induction s as [|c s IH]; [reflexivity|].
  cbn [all_bytes]. intros H. apply andb_prop in H as [Hc H].
  now rewrite (Hpq _ Hc), (IH H).
Qed.

Lemma pairByte_other (c d : ascii) :
  byte_of "&?#;" d = true -> pairByte c = true -> negb (c =? d)%char = true.
Proof.
  intros Hd Hc.
  destruct (c =? d)%char eqn:E; [|reflexivity].
  apply Ascii.eqb_eq in E. subst d. revert Hc Hd.
  destruct c as [[] [] [] [] [] [] [] []]; vm_compute; intros H1 H2;
    try discriminate H1; discriminate H2.
Qed.

Lemma pairByte_not_control (c : ascii) :
  pairByte c = true ->
  negb (Nat.ltb (nat_of_ascii c) 32 || Nat.eqb (nat_of_ascii c) 127) = true.
Proof.
  destruct c as [[] [] [] [] [] [] [] []]; vm_compute; intros H;
    try reflexivity; discriminate H.
Qed.

Lemma keyByte_pairByte (c : ascii) :
  regexp.pathParamByte c = true -> pairByte c = true /\ negb (c =? "=")%char = true.
Proof.
  destruct c as [[] [] [] [] [] [] [] []]; vm_compute; intros H;
    try (split; reflexivity); discriminate H.
Qed.

Lemma digit_pairByte (c : ascii) :
  is_digit c = true -> pairByte c = true /\ negb (c =? "=")%char = true.
Proof.
  destruct c as [[] [] [] [] [] [] [] []]; vm_compute; intros H;
    try (split; reflexivity); discriminate H.
Qed.

Lemma numberByte_pairByte (c : ascii) : numberByte c = true -> pairByte c = true.
Proof.
  destruct c as [[] [] [] [] [] [] [] []]; vm_compute; intros H;
    try reflexivity; discriminate H.
Qed.

Lemma string_of_uint_digits (d : Decimal.uint) :
  all_bytes is_digit (NilEmpty.string_of_uint d) = true.
Proof. induction d; cbn [NilEmpty.string_of_uint all_bytes]; try rewrite IHd; reflexivity. Qed.

Lemma fmtInteger_digits (n : nat) : all_bytes is_digit (fmt.fmtInteger n) = true.
Proof. apply string_of_uint_digits. Qed.

Lemma splitByte_Join (sep : ascii) (x : string) (l : list string) :
  Forall (fun s => noByte sep s = true) (x :: l) ->
  url.splitByte sep (strings.Join (x :: l) (String sep EmptyString)) = x :: l.
Proof.
  unfold strings.Join. revert x. induction l as [|y l IH]; intros x H.
  - apply Forall_inv in H. cbn [String.concat].
    induction x as [|c x IHx]; [reflexivity|].
    cbn [noByte all_bytes] in H. apply andb_prop in H as [Hc H].
    cbn [url.splitByte]. apply negb_true_iff in Hc. rewrite Hc.
    unfold noByte in IHx. now rewrite (IHx H).
  - pose proof (Forall_inv H) as Hx. apply Forall_inv_tail in H.
    specialize (IH y H).
    change (String.concat (String sep EmptyString) (x :: y :: l))
      with (x ++ String sep EmptyString ++ String.concat (String sep EmptyString) (y :: l)).
    induction x as [|c x IHx].
    + cbn [String.append url.splitByte]. rewrite Ascii.eqb_refl. now rewrite IH.
    + cbn [noByte all_bytes] in Hx. apply andb_prop in Hx as [Hc Hx].
      cbn [String.append url.splitByte]. apply negb_true_iff in Hc. rewrite Hc.
      change (String sep (String.concat (String sep EmptyString) (y :: l)))
        with (String sep EmptyString ++ String.concat (String sep EmptyString) (y :: l)).
      unfold noByte in IHx. now rewrite (IHx Hx).
Qed.

Lemma parseQueryPair_unreadable (m : url.Values) (pair : string) :
  unreadablePair pair -> url.parseQueryPair m pair = m.
Proof.
  intros (key & text & -> & Hk & Hp). unfold url.parseQueryPair.
  rewrite Contains_byte.
  rewrite (all_bytes_impl _ (fun x => negb (x =? ";")%char) _
             (fun c => pairByte_other c ";" eq_refl) Hp : noByte ";" _ = true).
  cbn [negb]. rewrite (Cut_at "=" key _ Hk).
  destruct (_ =? EmptyString); [reflexivity|].
  destruct (url.QueryUnescape key); reflexivity.
Qed.

Lemma ParseQuery_unreadable (l : list string) (m : url.Values) :
  Forall unreadablePair l -> fold_left url.parseQueryPair l m = m.
Proof.
  intros H. induction H as [|p l Hp _ IH]; [reflexivity|].
  cbn [fold_left]. now rewrite (parseQueryPair_unreadable m p Hp).
Qed.

Section NumericArrays.

Context {float64 : Type}.
Variable formatFloat : float64 -> string.
Variable baseRequestFields : list string.
Variable json_Unmarshal : string -> list (string * value float64) + error.
Variable Logger : Type.

Local Abbreviation accessMap' := (accessMap formatFloat baseRequestFields).
Local Abbreviation accessValue' := (accessValue formatFloat baseRequestFields).
Local Abbreviation buildQueryParams' := (buildQueryParams formatFloat baseRequestFields).

Lemma stringVerbText_unreadable (n : value float64) :
  numberOrBool formatFloat n = true ->
  exists text, stringVerbText formatFloat n = "%!s" ++ text
               /\ all_bytes pairByte text = true.
Proof.
  destruct n as [|[]|x|s|l|f]; try discriminate; intros Hn.
  - now exists "(bool=true)".
  - now exists "(bool=false)".
  - exists ("(float64=" ++ formatFloat x ++ ")"). split; [reflexivity|].
    rewrite !all_bytes_app, (all_bytes_impl _ _ _ numberByte_pairByte Hn).
    reflexivity.
Qed.

Lemma scalarPairs_unreadable (k : string) (e : list (value float64)) :
  all_bytes regexp.pathParamByte k = true ->
  forallb (numberOrBool formatFloat) e = true ->
  forall i, Forall unreadablePair (scalarPairs formatFloat EmptyString k e i).
Proof.
  intros Hk. induction e as [|n e IH]; intros He i; [constructor|].
  cbn [forallb] in He. apply andb_prop in He as [Hn He].
  cbn [scalarPairs]. constructor; [|now apply IH].
  destruct (stringVerbText_unreadable n Hn) as (text & -> & Ht).
  exists (k ++ "." ++ fmt.fmtInteger (i + 1)), text.
  assert (Hkey : all_bytes (fun c => pairByte c && negb (c =? "=")%char)
                   (k ++ "." ++ fmt.fmtInteger (i + 1)) = true).
  { rewrite !all_bytes_app.
    rewrite (all_bytes_impl _ _ k
               (fun c H => andb_true_intro (keyByte_pairByte c H)) Hk).
    rewrite (all_bytes_impl _ _ _
               (fun c H => andb_true_intro (digit_pairByte c H))
               (fmtInteger_digits (i + 1))).
    reflexivity. }
  assert (Heq : EmptyString ++ k ++ "." ++ fmt.fmtInteger (i + 1) ++ "=" ++ "%!s" ++ text
                = (k ++ "." ++ fmt.fmtInteger (i + 1)) ++ String "=" ("%!s" ++ text))
    by (cbn [String.append]; now rewrite !append_assoc).
  rewrite Heq. split; [reflexivity|]. split.
  - refine (all_bytes_impl _ _ _ _ Hkey). intros c H. now apply andb_prop in H.
  - rewrite all_bytes_app.
    rewrite (all_bytes_impl _ pairByte _
               (fun c H => proj1 (andb_prop _ _ H)) Hkey).
    cbn [all_bytes String.append]. now rewrite Ht.
Qed.

Lemma accessMap_unreadable (m : list (string * value float64)) (url : string) :
  forallb (fun kv => quietEntry baseRequestFields url kv
                     || numericArrayEntry formatFloat kv) m = true ->
  Forall unreadablePair (accessMap' m url EmptyString []).
Proof.
  intros H. rewrite accessMap_flat_map. apply Forall_flat_map, Forall_forall.
  intros [k v] Hin. rewrite forallb_forall in H. specialize (H _ Hin).
  cbn [fst snd]. unfold quietEntry, numericArrayEntry in H. cbn [fst snd] in H.
  destruct (shouldIgnoreField baseRequestFields url k); [constructor|].
  cbn [orb] in H.
  destruct v as [|b|x|s|e|f]; rewrite ?andb_false_r in H; try discriminate H;
    [cbn [accessValue]; constructor|].
  rewrite accessValue_slice.
  destruct e as [|n e]; [cbn [accessElements]; constructor|].
  cbn [orb] in H. apply andb_prop in H as [Hk He].
  rewrite accessElements_scalars.
  - now apply scalarPairs_unreadable.
  - rewrite forallb_forall in He |- *. intros y Hy. specialize (He y Hy).
    now destruct y.
Qed.

Lemma unreadable_query (x : string) (l : list string) :
  Forall unreadablePair (x :: l) ->
  let q := strings.Join (x :: l) "&" in
  noByte "?" q = true /\ noByte "#" q = true
  /\ url.stringContainsCTLByte q = false /\ q <> EmptyString
  /\ url.ParseQuery q = [].
Proof.
  intros H q.
  assert (Hb : Forall (fun s => all_bytes pairByte s = true) (x :: l)).
  { eapply Forall_impl; [|exact H]. cbv beta. now intros p (_ & _ & _ & _ & Hp). }
  assert (Hq : forall p : ascii -> bool,
             (forall c, pairByte c = true -> p c = true) -> p "&"%char = true ->
             all_bytes p q = true).
  { intros p Hp Hamp. apply Join_bytes; [|cbn [all_bytes]; now rewrite Hamp].
    eapply Forall_impl; [|exact Hb]. cbv beta. intros s. apply all_bytes_impl, Hp. }
  split; [|split; [|split; [|split]]].
  - apply Hq; [|reflexivity]. intros c. now apply pairByte_other.
  - apply Hq; [|reflexivity]. intros c. now apply pairByte_other.
  - unfold url.stringContainsCTLByte. rewrite Hq; [reflexivity| |reflexivity].
    apply pairByte_not_control.
  - intros E. apply Join_nil_inv in E; [discriminate E|].
    eapply Forall_impl; [|exact H]. cbv beta.
    intros p (key & text & -> & _) E'. now destruct key.
  - unfold url.ParseQuery, q. rewrite splitByte_Join.
    + now apply ParseQuery_unreadable.
    + eapply Forall_impl; [|exact Hb]. cbv beta. intros s.
      apply all_bytes_impl. intros c. now apply pairByte_other.
Qed.

(** X11: An array of numbers or booleans never reaches the query string.  Each
    element is printed with [%s], which for a number or a boolean gives
    Go's bad-verb text [%!s(float64=3)]; [encodeUrl] then has [net/url]
    read the joined pairs, and [net/url] drops every such pair because
    [%!s] is no escape.  When the bag holds nothing else that is emitted,
    the bodyless builder returns what [encodeUrl] gives for the substituted
    template alone: no [?], no query. *)
Theorem numeric_arrays_never_reach_the_query :
  forall (b : WithoutBodyBuilder Logger) (url paramJson replacedUrl : string)
         (m : list (string * value float64)),
    json_Unmarshal paramJson = inl m ->
    replaceUrlWithPathParam formatFloat url m = (replacedUrl, None) ->
    strings.Contains replacedUrl "?" = false ->
    strings.Contains replacedUrl "#" = false ->
    forallb (fun kv => quietEntry baseRequestFields url kv
                     || numericArrayEntry formatFloat kv) m = true ->
    Forall unreadablePair (accessMap' m url EmptyString [])
    /\ url.ParseQuery (buildQueryParams' m url) = []
    /\ match encodeUrl replacedUrl with
       | (path, None) =>
           fst (WithoutBodyBuilder_BuildURL formatFloat baseRequestFields json_Unmarshal
                  b url paramJson) = (path, None)
           /\ strings.Contains path "?" = false
       | (_, Some _) =>
           exists e,
             fst (WithoutBodyBuilder_BuildURL formatFloat baseRequestFields json_Unmarshal
                    b url paramJson) = (EmptyString, Some e)
       end.
Proof.
  intros b url paramJson replacedUrl m Hj Hr Hq Hf Hm.
  pose proof (accessMap_unreadable m url Hm) as Hu.
  split; [exact Hu|].
  rewrite (WithoutBodyBuilder_BuildURL_result formatFloat baseRequestFields json_Unmarshal
             Logger b url paramJson replacedUrl m Hj Hr).
  cbv zeta. unfold buildQueryParams.
  destruct (accessMap' m url EmptyString []) as [|x l] eqn:El.
  - split; [reflexivity|]. cbn.
    destruct (encodeUrl replacedUrl) as [path [e|]] eqn:Ee.
    + exists e. now rewrite (encodeUrl_error _ _ _ Ee).
    + split; [reflexivity|]. now apply (encodeUrl_no_query replacedUrl).
  - destruct (unreadable_query x l Hu) as (Q1 & Q2 & Q3 & Q4 & Q5).
    split; [exact Q5|].
    rewrite Contains_byte in Hq, Hf.
    apply negb_false_iff in Hq. apply negb_false_iff in Hf.
    pose proof (encodeUrl_with_query replacedUrl _ Hq Hf Q1 Q2 Q3 Q4) as Hw.
    destruct (strings.Join (x :: l) "&" =? EmptyString) eqn:Ej;
      [apply String.eqb_eq in Ej; now elim Q4|].
    cbn [negb].
    destruct (encodeUrl replacedUrl) as [path [e|]] eqn:Ee.
    + exact Hw.
    + rewrite Q5 in Hw. split; [exact Hw|].
      apply (encodeUrl_no_query replacedUrl); [|exact Ee].
      rewrite Contains_byte. now rewrite Hq.
Qed.

End NumericArrays.

(** ** Substitution of path parameters *)

Lemma word_noOpen (w : string) :
  all_bytes regexp.pathParamByte w = true -> noByte "{" w = true.
Proof.
  apply all_bytes_impl. intros c Hc.
  destruct (c =? "{")%char eqn:E; [|reflexivity].
  apply Ascii.eqb_eq in E. now elim (pathParamByte_not_open c Hc).
Qed.

Lemma placeholder_app (name s : string) :
  placeholder name ++ s = String "{" ((name ++ "}") ++ s).
Proof. unfold placeholder. cbn [String.append]. now rewrite !append_assoc. Qed.

Lemma placeholder_length (name : string) :
  String.length (placeholder name) - 1 = String.length (name ++ "}").
Proof. unfold placeholder. cbn [String.append String.length]. apply Nat.sub_0_r. Qed.

Lemma find_from_skip (a s : string) :
  regexp.find_from (String.length a) (a ++ s) = regexp.find_from 0 s.
Proof.
  induction a as [|c a IH]; [reflexivity|].
  cbn [String.length String.append regexp.find_from]. exact IH.
Qed.

Lemma find_from_literal (a s : string) :
  noByte "{" a = true -> regexp.find_from 0 (a ++ s) = regexp.find_from 0 s.
Proof.
  induction a as [|c a IH]; intros H; [reflexivity|].
  cbn [noByte all_bytes] in H. apply andb_prop in H as [Hc H].
  cbn [String.append regexp.find_from regexp.matchAt].
  apply negb_true_iff in Hc. rewrite Hc. now apply IH.
Qed.

Lemma FindAllString_render (t : list piece) :
  Forall wellFormedPiece t -> regexp.FindAllString (render t) = placeholders t.
Proof.
  unfold regexp.FindAllString.
  induction 1 as [|[text|name] t Hp _ IH]; [reflexivity| |]; cbn [render pieceText].
  - now rewrite (find_from_literal text _ Hp).
  - change (placeholders (pathParam name :: t)) with (placeholder name :: placeholders t).
    rewrite <- IH.
    pose proof (matchAt_placeholder name (render t) Hp) as Hm.
    rewrite placeholder_app in Hm |- *.
    cbn [regexp.find_from]. rewrite Hm, placeholder_length. now rewrite find_from_skip.
Qed.

Lemma replace_from_skip (a s old new : string) :
  strings.replace_from (String.length a) (a ++ s) old new = strings.replace_from 0 s old new.
Proof.
  induction a as [|c a IH]; [reflexivity|].
  cbn [String.length String.append strings.replace_from]. exact IH.
Qed.

Lemma replace_from_literal (a s name new : string) :
  noByte "{" a = true ->
  strings.replace_from 0 (a ++ s) (placeholder name) new
  = a ++ strings.replace_from 0 s (placeholder name) new.
Proof.
  induction a as [|c a IH]; intros H; [reflexivity|].
  cbn [noByte all_bytes] in H. apply andb_prop in H as [Hc H].
  cbn [String.append strings.replace_from].
  destruct (strings.HasPrefix (String c (a ++ s)) (placeholder name)) eqn:E.
  - apply HasPrefix_head in E. subst c. discriminate Hc.
  - now rewrite (IH H).
Qed.

Lemma replace_from_same (name s new : string) :
  strings.replace_from 0 (placeholder name ++ s) (placeholder name) new
  = new ++ strings.replace_from 0 s (placeholder name) new.
Proof.
  pose proof (HasPrefix_app (placeholder name) s) as Hp.
  rewrite placeholder_app in Hp |- *.
  cbn [strings.replace_from]. rewrite Hp, placeholder_length.
  now rewrite replace_from_skip.
Qed.

Lemma HasPrefix_placeholder (name name' s : string) :
  pathParamName name -> pathParamName name' ->
  strings.HasPrefix (placeholder name' ++ s) (placeholder name) = true ->
  name' = name.
Proof.
  intros [_ Hn] [_ Hn'] H. apply HasPrefix_inv in H as [r H].
  rewrite !placeholder_app in H. injection H as H.
  rewrite !append_assoc in H. cbn [String.append] in H.
  pose proof (span_word name' s Hn') as S1.
  rewrite H, (span_word name r Hn) in S1. now injection S1.
Qed.

Lemma replace_from_other (name name' s new : string) :
  pathParamName name -> pathParamName name' -> name' <> name ->
  strings.replace_from 0 (placeholder name' ++ s) (placeholder name) new
  = placeholder name' ++ strings.replace_from 0 s (placeholder name) new.
Proof.
  intros Hn Hn' Hne.
  destruct (strings.HasPrefix (placeholder name' ++ s) (placeholder name)) eqn:E;
    [now elim Hne; apply (HasPrefix_placeholder name name' s)|].
  rewrite placeholder_app in E. rewrite !placeholder_app.
  cbn [strings.replace_from]. rewrite E. f_equal.
  apply replace_from_literal.
  rewrite noByte_app, (word_noOpen _ (proj2 Hn')). reflexivity.
Qed.

Lemma Replace_render (t : list piece) (name new : string) :
  pathParamName name ->
  Forall wellFormedPiece t ->
  strings.Replace (render t) (placeholder name) new
  = render (map (replacePiece name new) t).
Proof.
  intros Hn. unfold strings.Replace.
  induction 1 as [|[text|name'] t Hp _ IH]; [reflexivity| |];
    cbn [render pieceText map replacePiece].
  - now rewrite (replace_from_literal text _ name new Hp), IH.
  - destruct (name' =? name) eqn:E.
    + apply String.eqb_eq in E. subst name'. cbn [pieceText].
      now rewrite replace_from_same, IH.
    + apply String.eqb_neq in E. cbn [pieceText].
      now rewrite (replace_from_other name name' _ new Hn Hp E), IH.
Qed.

Lemma replacePiece_wellFormed (t : list piece) (name new : string) :
  noByte "{" new = true ->
  Forall wellFormedPiece t -> Forall wellFormedPiece (map (replacePiece name new) t).
Proof.
  intros Hnew. induction 1 as [|[text|name'] t Hp _ IH]; cbn [map replacePiece];
    constructor; try assumption.
  now destruct (name' =? name).
Qed.

Section Substitution.

Context {float64 : Type}.
Variable formatFloat : float64 -> string.

Lemma fillNamed_cons (paramMap : list (string * value float64)) (name : string)
    (names : list string) (v : value float64) (p : piece) :
  lookup name paramMap = Some v ->
  fillNamed formatFloat names paramMap (replacePiece name (Sprint_v formatFloat v) p)
  = fillNamed formatFloat (name :: names) paramMap p.
Proof.
  intros Hv. destruct p as [text|name']; [reflexivity|].
  cbn [replacePiece fillNamed existsb]. destruct (name' =? name) eqn:E.
  - apply String.eqb_eq in E. subst name'. cbn [orb fill]. now rewrite Hv.
  - reflexivity.
Qed.

Lemma replaceMatches_render (paramMap : list (string * value float64)) :
  forall (names : list string) (t : list piece),
    Forall wellFormedPiece t ->
    Forall (fillableName formatFloat paramMap) names ->
    replaceMatches formatFloat (map placeholder names) (render t) paramMap
    = (render (map (fillNamed formatFloat names paramMap) t), None).
Proof.
  induction names as [|name names IH]; intros t Ht Hn.
  - cbn [map replaceMatches]. f_equal. f_equal.
    rewrite <- (map_id t) at 1. apply map_ext. now intros [text|name].
  - pose proof (Forall_inv Hn) as (Hname & v & Hv & Hopen).
    apply Forall_inv_tail in Hn.
    cbn [map replaceMatches]. rewrite (field_of_placeholder name Hname), Hv.
    rewrite (Replace_render t name _ Hname Ht).
    rewrite (IH _ (replacePiece_wellFormed t name _ Hopen Ht) Hn).
    rewrite map_map. f_equal. f_equal. apply map_ext. intros p.
    now apply fillNamed_cons.
Qed.

Lemma fillable_wellFormed (paramMap : list (string * value float64)) (t : list piece) :
  Forall (fillable formatFloat paramMap) t -> Forall wellFormedPiece t.
Proof.
  apply Forall_impl. intros [text|name]; [easy|]. now intros [H _].
Qed.

(** X12: Path substitution is simultaneous substitution: on a template made of
    text without an opening brace and of placeholders, with a bag that
    holds every placeholder's name and whose values print without an
    opening brace, [replaceUrlWithPathParam] returns the template with
    each placeholder, at every place it occurs, replaced by the [%v] text
    of its value, and nothing else changed. *)
Theorem replaceUrlWithPathParam_fills_template :
  forall (paramMap : list (string * value float64)) (t : list piece),
    Forall (fillable formatFloat paramMap) t ->
    regexp.FindAllString (render t) = placeholders t
    /\ replaceUrlWithPathParam formatFloat (render t) paramMap
       = (render (map (fill formatFloat paramMap) t), None).
Proof.
  intros paramMap t Ht.
  pose proof (fillable_wellFormed paramMap t Ht) as Hw.
  split; [now apply FindAllString_render|].
  unfold replaceUrlWithPathParam. rewrite (FindAllString_render t Hw).
  set (names := flat_map (fun p => match p with
                                   | literal _ => []
                                   | pathParam name => [name]
                                   end) t).
  assert (Hp : placeholders t = map placeholder names).
  { unfold placeholders, names. clear. induction t as [|[text|name] t IH]; cbn;
      [reflexivity | exact IH | f_equal; exact IH]. }
  assert (Hn : Forall (fillableName formatFloat paramMap) names).
  { unfold names. apply Forall_flat_map.
    eapply Forall_impl; [|exact Ht]. cbv beta.
    intros [text|name] H; constructor; [exact H | constructor]. }
  rewrite Hp, (replaceMatches_render paramMap names t Hw Hn).
  f_equal. f_equal. apply map_ext_in. intros [text|name] Hin; [reflexivity|].
  cbn [fillNamed].
  replace (existsb (String.eqb name) names) with true; [reflexivity|].
  symmetry. apply existsb_exists. exists name. split; [|apply String.eqb_refl].
  unfold names. apply in_flat_map. exists (pathParam name). split; [exact Hin|now left].
Qed.

End Substitution.

(** ** The query, read back *)

Lemma unescaped_query_byte_plain (c : ascii) :
  url.shouldEscape c url.encodeQueryComponent = false ->
  (c =? "%")%char = false /\ (c =? "+")%char = false
  /\ negb (byte_of "&=;" c) = true.
Proof.
  destruct c as [[] [] [] [] [] [] [] []]; vm_compute; intros H;
    try (repeat split; reflexivity); discriminate H.
Qed.

Lemma queryTextByte_plain (c : ascii) :
  queryTextByte c = true ->
  (c =? "%")%char = false /\ (c =? "+")%char = false
  /\ negb (byte_of "&=;" c) = true /\ negb (c =? "?")%char = true
  /\ negb (c =? "#")%char = true
  /\ negb (Nat.ltb (nat_of_ascii c) 32 || Nat.eqb (nat_of_ascii c) 127) = true.
Proof.
  destruct c as [[] [] [] [] [] [] [] []]; vm_compute; intros H;
    try (repeat split; reflexivity); discriminate H.
Qed.

Lemma upperhex_hex (n : nat) :
  url.ishex (url.upperhex n) = true /\ negb (byte_of "&=;" (url.upperhex n)) = true.
Proof.
  unfold url.upperhex. do 17 (destruct n as [|n]; [split; reflexivity|]). split; reflexivity.
Qed.

Lemma hex_read_back (c : ascii) :
  ascii_of_nat (url.unhex (url.upperhex (nat_of_ascii c / 16)) * 16
                + url.unhex (url.upperhex (nat_of_ascii c mod 16))) = c.
Proof. destruct c as [[] [] [] [] [] [] [] []]; vm_compute; reflexivity. Qed.

Lemma QueryEscape_readBack (s : string) : readBack url.QueryEscape s.
Proof.
  unfold readBack, url.QueryUnescape, url.QueryEscape, separatorFree.
  induction s as [|c s [IH1 IH2]]; [split; reflexivity|].
  cbn [url.escape]. destruct (c =? " ")%char eqn:Hsp.
  - apply Ascii.eqb_eq in Hsp. subst c. cbn [all_bytes]. rewrite IH2.
    split; [|reflexivity].
    cbn [url.unescape]. change ("+" =? "%")%char with false. cbv beta iota.
    cbn [url.is_host_mode andb]. now rewrite IH1.
  - destruct (url.shouldEscape c url.encodeQueryComponent) eqn:Hc.
    + cbn [all_bytes]. rewrite IH2.
      rewrite (proj2 (upperhex_hex (nat_of_ascii c / 16))),
              (proj2 (upperhex_hex (nat_of_ascii c mod 16))).
      split; [|reflexivity].
      cbn [url.unescape]. change ("%" =? "%")%char with true. cbv beta iota.
      rewrite (proj1 (upperhex_hex (nat_of_ascii c / 16))),
              (proj1 (upperhex_hex (nat_of_ascii c mod 16))).
      cbn [andb negb]. rewrite IH1. now rewrite hex_read_back.
    + destruct (unescaped_query_byte_plain c Hc) as (Hp & Hplus & Hsep).
      cbn [all_bytes]. rewrite Hsep, IH2. split; [|reflexivity].
      cbn [url.unescape]. rewrite Hp. cbn [url.is_host_mode andb].
      now rewrite IH1, Hplus.
Qed.

Lemma plain_readBack (s : string) :
  all_bytes queryTextByte s = true -> readBack (fun x => x) s.
Proof.
  unfold readBack, url.QueryUnescape, separatorFree.
  induction s as [|c s IH]; intros H; [split; reflexivity|].
  cbn [all_bytes] in H. apply andb_prop in H as [Hc H].
  destruct (IH H) as [IH1 IH2].
  destruct (queryTextByte_plain c Hc) as (Hp & Hplus & Hsep & _).
  cbn [all_bytes]. rewrite Hsep, IH2. split; [|reflexivity].
  cbn [url.unescape]. rewrite Hp. cbn [url.is_host_mode andb].
  now rewrite IH1, Hplus.
Qed.

Lemma separatorFree_noByte (c : ascii) (s : string) :
  byte_of "&=;" c = true -> separatorFree s = true -> noByte c s = true.
Proof.
  intros Hc. apply all_bytes_impl. intros x Hx.
  destruct (x =? c)%char eqn:E; [|reflexivity].
  apply Ascii.eqb_eq in E. subst x. now rewrite Hc in Hx.
Qed.

Lemma Add_fresh (m : url.Values) (key value : string) :
  ~ In key (map fst m) -> url.Add m key value = (m ++ [(key, [value])])%list.
Proof.
  induction m as [|[k vs] m IH]; intros H; [reflexivity|].
  cbn [url.Add List.app]. destruct (k =? key) eqn:E.
  - apply String.eqb_eq in E. subst k. elim H. now left.
  - rewrite IH; [reflexivity|]. intros Hin. apply H. now right.
Qed.

Lemma parseQueryPair_readBack (enc : string -> string) (m : url.Values) (k v : string) :
  readBack enc k -> readBack enc v ->
  url.parseQueryPair m (enc k ++ String "=" (enc v)) = url.Add m k v.
Proof.
  intros [Hk Sk] [Hv Sv]. unfold url.parseQueryPair.
  rewrite Contains_byte.
  assert (Hsemi : noByte ";" (enc k ++ String "=" (enc v)) = true).
  { rewrite noByte_app. cbn [noByte all_bytes].
    rewrite (separatorFree_noByte ";" _ eq_refl Sk).
    now rewrite (separatorFree_noByte ";" _ eq_refl Sv : all_bytes _ _ = true). }
  rewrite Hsemi. cbn [negb].
  rewrite (Cut_at "=" (enc k) (enc v) (separatorFree_noByte "=" _ eq_refl Sk)).
  destruct (_ =? EmptyString) eqn:E.
  - apply String.eqb_eq in E. now destruct (enc k).
  - now rewrite Hk, Hv.
Qed.

Lemma parseQuery_pairs (enc : string -> string) (l : list (string * string)) :
  forall (m : url.Values),
    NoDup (map fst m ++ map fst l)%list ->
    Forall (fun kv => readBack enc (fst kv) /\ readBack enc (snd kv)) l ->
    fold_left url.parseQueryPair
      (map (fun kv => enc (fst kv) ++ String "=" (enc (snd kv))) l) m
    = (m ++ map singleValued l)%list.
Proof.
  induction l as [|[k v] l IH]; intros m Hd Hl.
  - cbn. now rewrite app_nil_r.
  - pose proof (Forall_inv Hl) as [Hk Hv]. apply Forall_inv_tail in Hl.
    cbn [map fold_left fst snd] in *.
    rewrite (parseQueryPair_readBack enc m k v Hk Hv).
    rewrite Add_fresh.
    + rewrite IH; [now rewrite <- app_assoc | | exact Hl].
      rewrite map_app. cbn [map fst]. now rewrite <- app_assoc.
    + apply NoDup_remove_2 in Hd. intros Hin. apply Hd, in_or_app. now left.
Qed.

Lemma ParseQuery_pairs (enc : string -> string) (l : list (string * string)) :
  NoDup (map fst l) ->
  Forall (fun kv => readBack enc (fst kv) /\ readBack enc (snd kv)) l ->
  url.ParseQuery
    (strings.Join (map (fun kv => enc (fst kv) ++ String "=" (enc (snd kv))) l) "&")
  = map singleValued l.
Proof.
  intros Hd Hl. unfold url.ParseQuery. destruct l as [|kv l]; [reflexivity|].
  cbn [map]. rewrite splitByte_Join.
  - apply (parseQuery_pairs enc (kv :: l) [] Hd Hl).
  - change (Forall (fun s => noByte "&" s = true)
              (map (fun kv => enc (fst kv) ++ String "=" (enc (snd kv))) (kv :: l))).
    apply Forall_map. eapply Forall_impl; [|exact Hl]. cbv beta.
    intros [k v] [[_ Sk] [_ Sv]]. cbn [fst snd] in *.
    rewrite noByte_app. cbn [noByte all_bytes].
    rewrite (separatorFree_noByte "&" _ eq_refl Sk).
    now rewrite (separatorFree_noByte "&" _ eq_refl Sv : all_bytes _ _ = true).
Qed.

Lemma insertByKey_map {A B : Type} (g : string * A -> string * B) (e : string * A)
    (l : list (string * A)) :
  (forall x, fst (g x) = fst x) ->
  insertByKey (g e) (map g l) = map g (insertByKey e l).
Proof.
  intros Hg. induction l as [|x l IH]; [reflexivity|].
  cbn [map insertByKey]. rewrite !Hg.
  destruct (String.leb (fst e) (fst x)); [reflexivity|]. cbn [map]. now rewrite IH.
Qed.

Lemma sortByKey_map {A B : Type} (g : string * A -> string * B) (l : list (string * A)) :
  (forall x, fst (g x) = fst x) ->
  sortByKey (map g l) = map g (sortByKey l).
Proof.
  intros Hg. unfold sortByKey. induction l as [|x l IH]; [reflexivity|].
  cbn [map fold_right]. rewrite IH. now apply insertByKey_map.
Qed.

Lemma insertByKey_Permutation {A : Type} (e : string * A) (l : list (string * A)) :
  Permutation (e :: l) (insertByKey e l).
Proof.
  induction l as [|x l IH]; [apply Permutation_refl|].
  cbn [insertByKey]. destruct (String.leb (fst e) (fst x)); [apply Permutation_refl|].
  eapply perm_trans; [apply perm_swap|]. now apply perm_skip.
Qed.

Lemma sortByKey_Permutation {A : Type} (l : list (string * A)) :
  Permutation l (sortByKey l).
Proof.
  unfold sortByKey. induction l as [|x l IH]; [apply perm_nil|].
  cbn [fold_right]. eapply perm_trans; [|apply insertByKey_Permutation].
  now apply perm_skip.
Qed.

Lemma Encode_singleValued (l : list (string * string)) :
  url.Encode (map singleValued l)
  = strings.Join
      (map (fun kv => url.QueryEscape (fst kv) ++ String "=" (url.QueryEscape (snd kv)))
           (sortByKey l)) "&".
Proof.
  unfold url.Encode. rewrite (sortByKey_map singleValued l (fun x => eq_refl)).
  f_equal. induction (sortByKey l) as [|x s IH]; [reflexivity|].
  cbn [map flat_map singleValued fst snd List.app]. now rewrite IH.
Qed.

(** [net/url] reads back what it wrote: for pairs with distinct keys,
    parsing their encoding gives the pairs, in the order of their keys. *)
Lemma ParseQuery_Encode (l : list (string * string)) :
  NoDup (map fst l) ->
  url.ParseQuery (url.Encode (map singleValued l)) = sortByKey (map singleValued l).
Proof.
  intros Hd. rewrite Encode_singleValued.
  rewrite (sortByKey_map singleValued l (fun x => eq_refl)).
  apply (ParseQuery_pairs url.QueryEscape).
  - eapply Permutation_NoDup; [|exact Hd].
    apply Permutation_map, sortByKey_Permutation.
  - apply Forall_forall. intros kv _. split; apply QueryEscape_readBack.
Qed.

Lemma leb_trans (a b c : string) :
  String.leb a b = true -> String.leb b c = true -> String.leb a c = true.
Proof.
  unfold String.leb. revert b c.
  induction a as [|x a IH]; intros [|y b] [|z c]; cbn [String.compare];
    try reflexivity; try discriminate.
  unfold Ascii.compare.
  destruct (BinNat.N.compare_spec (N_of_ascii x) (N_of_ascii y)) as [Hxy|Hxy|Hxy],
           (BinNat.N.compare_spec (N_of_ascii y) (N_of_ascii z)) as [Hyz|Hyz|Hyz],
           (BinNat.N.compare_spec (N_of_ascii x) (N_of_ascii z)) as [Hxz|Hxz|Hxz];
    try reflexivity; try discriminate; try (exfalso; lia).
  apply IH.
Qed.

Lemma insertByKey_comm {A : Type} (x y : string * A) (l : list (string * A)) :
  fst x <> fst y ->
  insertByKey x (insertByKey y l) = insertByKey y (insertByKey x l).
Proof.
  intros Hne.
  assert (Hyx : String.leb (fst y) (fst x) = negb (String.leb (fst x) (fst y))).
  { destruct (String.leb (fst x) (fst y)) eqn:E1, (String.leb (fst y) (fst x)) eqn:E2;
      try reflexivity.
    - now elim Hne; apply String.leb_antisym.
    - destruct (String.leb_total (fst x) (fst y)) as [T|T]; congruence. }
  induction l as [|z l IH].
  - cbn [insertByKey]. rewrite Hyx. now destruct (String.leb (fst x) (fst y)).
  - cbn [insertByKey].
    destruct (String.leb (fst y) (fst z)) eqn:Eyz, (String.leb (fst x) (fst z)) eqn:Exz;
      cbn [insertByKey]; rewrite ?Eyz, ?Exz.
    + rewrite Hyx. destruct (String.leb (fst x) (fst y)); cbn [negb];
        rewrite ?Eyz, ?Exz; reflexivity.
    + destruct (String.leb (fst x) (fst y)) eqn:E; [|reflexivity].
      rewrite (leb_trans _ _ _ E Eyz) in Exz. discriminate Exz.
    + destruct (String.leb (fst y) (fst x)) eqn:E; [|reflexivity].
      rewrite (leb_trans _ _ _ E Exz) in Eyz. discriminate Eyz.
    + now rewrite IH.
Qed.

(** With distinct keys, the order of the keys does not depend on the order
    the entries came in. *)
Lemma sortByKey_order {A : Type} (l l' : list (string * A)) :
  Permutation l l' -> NoDup (map fst l) -> sortByKey l = sortByKey l'.
Proof.
  unfold sortByKey. induction 1 as [|x l l' _ IH|x y l|l l' l'' H1 IH1 H2 IH2]; intros Hd.
  - reflexivity.
  - cbn [fold_right]. rewrite IH; [reflexivity|]. now apply NoDup_cons_iff in Hd.
  - cbn [fold_right]. apply insertByKey_comm.
    cbn [map] in Hd. apply NoDup_cons_iff in Hd as [Hd _].
    intros E. apply Hd. left. now symmetry.
  - rewrite IH1, IH2; [reflexivity | | exact Hd].
    eapply Permutation_NoDup; [|exact Hd]. now apply Permutation_map.
Qed.

Section QueryRoundTrip.

Context {float64 : Type}.
Variable formatFloat : float64 -> string.
Variable baseRequestFields : list string.
Variable json_Unmarshal : string -> list (string * value float64) + error.
Variable Logger : Type.

Local Abbreviation accessMap' := (accessMap formatFloat baseRequestFields).
Local Abbreviation buildQueryParams' := (buildQueryParams formatFloat baseRequestFields).
Local Abbreviation textPair :=
  (fun kv : string * value float64 => (fst kv, valueVerbText formatFloat (snd kv))).

Lemma accessMap_plain (m : list (string * value float64)) (url : string) :
  forallb (plainEntry formatFloat baseRequestFields url) m = true ->
  accessMap' m url EmptyString []
  = map (fun kv => fst kv ++ String "=" (snd kv)) (map textPair m).
Proof.
  intros H. rewrite accessMap_flat_map.
  induction m as [|[k v] m IH]; [reflexivity|].
  cbn [forallb] in H. apply andb_prop in H as [Hkv H].
  cbn [flat_map map fst snd]. rewrite (IH H).
  unfold plainEntry in Hkv. cbn [fst snd] in Hkv.
  apply andb_prop in Hkv as [Hkv _]. apply andb_prop in Hkv as [Hkv _].
  apply andb_prop in Hkv as [Hi Hs]. apply negb_true_iff in Hi. rewrite Hi.
  destruct v as [|[]|x|s|e|f]; try discriminate Hs; reflexivity.
Qed.

Lemma plain_pairs (m : list (string * value float64)) (url : string) :
  forallb (plainEntry formatFloat baseRequestFields url) m = true ->
  Forall (fun kv => all_bytes queryTextByte (fst kv) = true
                    /\ all_bytes queryTextByte (snd kv) = true) (map textPair m).
Proof.
  intros H. apply Forall_map, Forall_forall. intros kv Hin.
  rewrite forallb_forall in H. specialize (H kv Hin). unfold plainEntry in H.
  apply andb_prop in H as [H Hv]. apply andb_prop in H as [_ Hk]. now split.
Qed.

Lemma plain_query (x : string * string) (l : list (string * string)) :
  Forall (fun kv => all_bytes queryTextByte (fst kv) = true
                    /\ all_bytes queryTextByte (snd kv) = true) (x :: l) ->
  let q := strings.Join (map (fun kv => fst kv ++ String "=" (snd kv)) (x :: l)) "&" in
  noByte "?" q = true /\ noByte "#" q = true
  /\ url.stringContainsCTLByte q = false /\ q <> EmptyString.
Proof.
  intros H q.
  assert (Hq : forall p : ascii -> bool,
             (forall c, queryTextByte c = true -> p c = true) ->
             p "&"%char = true -> p "="%char = true ->
             all_bytes p q = true).
  { intros p Hp Hamp Heq. apply Join_bytes; [|cbn [all_bytes]; now rewrite Hamp].
    apply Forall_map. eapply Forall_impl; [|exact H]. cbv beta.
    intros [k v] [Hk Hv]. cbn [fst snd] in *.
    rewrite all_bytes_app. cbn [all_bytes].
    now rewrite (all_bytes_impl _ p k Hp Hk), Heq, (all_bytes_impl _ p v Hp Hv). }
  split; [|split; [|split]].
  - apply Hq; [|reflexivity|reflexivity]. intros c Hc. apply (queryTextByte_plain c Hc).
  - apply Hq; [|reflexivity|reflexivity]. intros c Hc. apply (queryTextByte_plain c Hc).
  - unfold url.stringContainsCTLByte. rewrite Hq; [reflexivity| |reflexivity|reflexivity].
    intros c Hc. apply (queryTextByte_plain c Hc).
  - intros E. apply Join_nil_inv in E; [discriminate E|].
    apply Forall_map, Forall_forall. intros [k v] _ E'. cbn [fst snd] in E'.
    now destruct k.
Qed.

(** X13: The query the bodyless builder writes is read back as the bag.  For a
    bag of fields with distinct keys, none ignored, whose values are
    strings, numbers or booleans and whose keys and [%v] texts hold no
    separator, escape, [+], [?], [#] or control byte (spaces and bytes
    above 127 are allowed), [BuildURL] returns the encoded path, [?], and
    the encoding of one pair per field; parsing that query gives back each
    key with its text, in the order of the keys, whatever order [range]
    visited the bag in: a bag with the same fields in another order gives
    the same query. *)
Theorem bodyless_query_reads_back :
  forall (b : WithoutBodyBuilder Logger) (url paramJson replacedUrl : string)
         (m : list (string * value float64)),
    json_Unmarshal paramJson = inl m ->
    replaceUrlWithPathParam formatFloat url m = (replacedUrl, None) ->
    strings.Contains replacedUrl "?" = false ->
    strings.Contains replacedUrl "#" = false ->
    m <> [] ->
    NoDup (map fst m) ->
    forallb (plainEntry formatFloat baseRequestFields url) m = true ->
    let pairs := map singleValued (map textPair m) in
    url.ParseQuery (buildQueryParams' m url) = pairs
    /\ url.ParseQuery (url.Encode pairs) = sortByKey pairs
    /\ (forall m', Permutation m m' ->
                   url.Encode (map singleValued (map textPair m')) = url.Encode pairs)
    /\ match encodeUrl replacedUrl with
       | (path, None) =>
           fst (WithoutBodyBuilder_BuildURL formatFloat baseRequestFields json_Unmarshal
                  b url paramJson)
           = (path ++ "?" ++ url.Encode pairs, None)
       | (_, Some _) =>
           exists e,
             fst (WithoutBodyBuilder_BuildURL formatFloat baseRequestFields json_Unmarshal
                    b url paramJson) = (EmptyString, Some e)
       end.
Proof.
  intros b url paramJson replacedUrl m Hj Hr Hq Hf Hne Hd Hm pairs.
  assert (Hd' : NoDup (map fst (map textPair m)))
    by (rewrite map_map; exact Hd).
  pose proof (plain_pairs m url Hm) as Hp.
  assert (Hparse : url.ParseQuery (buildQueryParams' m url) = pairs).
  { unfold buildQueryParams. rewrite (accessMap_plain m url Hm).
    apply (ParseQuery_pairs (fun x => x)); [exact Hd'|].
    eapply Forall_impl; [|exact Hp]. cbv beta.
    intros kv [Hk Hv]. split; now apply plain_readBack. }
  split; [exact Hparse|]. split; [now apply ParseQuery_Encode|].
  split.
  { intros m' Hperm. unfold pairs. rewrite !Encode_singleValued.
    rewrite (sortByKey_order (map textPair m) (map textPair m'));
      [reflexivity | now apply Permutation_map | exact Hd']. }
  rewrite (WithoutBodyBuilder_BuildURL_result formatFloat baseRequestFields json_Unmarshal
             Logger b url paramJson replacedUrl m Hj Hr).
  cbv zeta. revert Hparse. unfold buildQueryParams. rewrite (accessMap_plain m url Hm).
  destruct (map textPair m) as [|x l] eqn:El; [now destruct m|].
  intros Hparse.
  destruct (plain_query x l Hp) as (Q1 & Q2 & Q3 & Q4).
  rewrite Contains_byte in Hq, Hf.
  apply negb_false_iff in Hq. apply negb_false_iff in Hf.
  pose proof (encodeUrl_with_query replacedUrl _ Hq Hf Q1 Q2 Q3 Q4) as Hw.
  match goal with
  | |- context [negb (?q =? EmptyString)] =>
      destruct (q =? EmptyString) eqn:Ej;
        [apply String.eqb_eq in Ej; now elim Q4|]
  end.
  cbn [negb].
  destruct (encodeUrl replacedUrl) as [path [e|]] eqn:Ee; [exact Hw|].
  rewrite Hparse in Hw. etransitivity; [exact Hw|]. cbv zeta.
  destruct (url.Encode pairs =? EmptyString) eqn:Ee'; [|reflexivity].
  apply String.eqb_eq in Ee'. unfold pairs in Ee'.
  rewrite Encode_singleValued in Ee'. apply Join_nil_inv in Ee'.
  - apply (f_equal (@List.length _)) in Ee'. rewrite length_map in Ee'.
    rewrite <- (Permutation_length (sortByKey_Permutation (x :: l))) in Ee'.
    discriminate Ee'.
  - apply Forall_map, Forall_forall. intros [k v] _ E'. cbn [fst snd] in E'.
    now destruct (url.QueryEscape k).
Qed.

End QueryRoundTrip.

(** ** The body and the other fields *)

Section BodyFields.

Context {float64 : Type}.
Variable baseRequestFields : list string.
Variable json_Unmarshal : string -> list (string * value float64) + error.
Variable json_Marshal : list (string * value float64) -> string.
Variable Logger : Type.

Lemma includes_eqb (k k' : string) :
  includes baseRequestFields k = true -> includes baseRequestFields k' = false ->
  (k =? k') = false.
Proof.
  intros H H'. destruct (k =? k') eqn:E; [|reflexivity].
  apply String.eqb_eq in E. subst k'. now rewrite H in H'.
Qed.

Lemma lookup_removeBaseRequestFields (m : list (string * value float64)) (k : string) :
  lookup k (removeBaseRequestFields baseRequestFields m)
  = if includes baseRequestFields k then None else lookup k m.
Proof.
  unfold removeBaseRequestFields.
  induction m as [|[k0 v0] m IH]; [now destruct (includes _ k)|].
  cbn [filter fst lookup].
  destruct (includes baseRequestFields k0) eqn:E0; cbn [negb].
  - rewrite IH. destruct (includes baseRequestFields k) eqn:E; [reflexivity|].
    now rewrite (includes_eqb k0 k E0 E).
  - cbn [lookup]. rewrite IH. destruct (k0 =? k) eqn:Ek; [|reflexivity].
    apply String.eqb_eq in Ek. subst k0. now rewrite E0.
Qed.

Lemma removeBaseRequestFields_none (m : list (string * value float64)) :
  forallb (fun kv => negb (includes baseRequestFields (fst kv))) m = true ->
  removeBaseRequestFields baseRequestFields m = m.
Proof.
  unfold removeBaseRequestFields. induction m as [|kv m IH]; [reflexivity|].
  cbn [forallb filter]. intros H. apply andb_prop in H as [Hk H].
  now rewrite Hk, (IH H).
Qed.

(** X14: [BuildBody] deletes the base request fields and nothing else: in the
    map it encodes, a base field is absent and every other key has the
    value the bag gave it (a null included); a bag without base fields is
    encoded as it is.  The body returned is the one logged. *)
Theorem WithBodyBuilder_BuildBody_other_fields :
  forall (b : WithBodyBuilder Logger) (paramJson : string)
         (m : list (string * value float64)),
    json_Unmarshal paramJson = inl m ->
    exists body,
      WithBodyBuilder_BuildBody baseRequestFields json_Unmarshal json_Marshal b paramJson
      = ((json_Marshal body, None), [(LogInfo, [Text "Body="; Text (json_Marshal body)])])
      /\ (forall k, lookup k body
                    = if includes baseRequestFields k then None else lookup k m)
      /\ (forallb (fun kv => negb (includes baseRequestFields (fst kv))) m = true ->
          body = m).
Proof.
  intros b paramJson m Hj. exists (removeBaseRequestFields baseRequestFields m).
  split; [|split].
  - unfold WithBodyBuilder_BuildBody. now rewrite Hj.
  - apply lookup_removeBaseRequestFields.
  - apply removeBaseRequestFields_none.
Qed.

End BodyFields.

(** ** The added theorems at concrete inputs *)

Lemma path_parameter_not_in_query_witness :
  shouldIgnoreField sampleFields "/v1/regions/{regionId}/instances" "regionId" = true
  /\ accessMap printedFloat sampleFields regionBag "/v1/regions/{regionId}/instances"
       EmptyString []
     = ["name=x"].
Proof.
  assert (Hn : pathParamName "regionId") by (split; [discriminate | reflexivity]).
  destruct (path_parameter_not_in_query printedFloat sampleFields
              "/v1/regions/{regionId}/instances" "regionId" Hn) as [Hiff H].
  destruct (H (proj2 Hiff eq_refl)) as [Hs Ha].
  split; [exact Hs|].
  exact (eq_trans (Ha [] [("Version", VString "v1"); ("name", VString "x")]
                      (VString "cn-north-1") EmptyString [])
                  eq_refl).
Defined.

Lemma WithBodyBuilder_BuildURL_other_fields_witness :
  WithBodyBuilder_BuildURL printedFloat
    (decodeTable [(regionJson, regionBag); (regionOnlyJson, regionOnlyBag)])
    {| WithBody_Logger := tt |} "/v1/regions/{regionId}/instances" regionJson
  = WithBodyBuilder_BuildURL printedFloat
      (decodeTable [(regionJson, regionBag); (regionOnlyJson, regionOnlyBag)])
      {| WithBody_Logger := tt |} "/v1/regions/{regionId}/instances" regionOnlyJson.
Proof.
  exact (WithBodyBuilder_BuildURL_other_fields printedFloat
           (decodeTable [(regionJson, regionBag); (regionOnlyJson, regionOnlyBag)]) unit
           {| WithBody_Logger := tt |} "/v1/regions/{regionId}/instances" "name"
           regionJson regionOnlyJson (VString "x")
           [("regionId", VString "cn-north-1"); ("Version", VString "v1")] []
           eq_refl eq_refl eq_refl).
Defined.

Lemma accessMap_order_of_range_witness :
  Permutation ["name=a b"; "id=7"] ["id=7"; "name=a b"].
Proof.
  exact (accessMap_order_of_range printedFloat sampleFields
           searchBag [("id", VString "7"); ("name", VString "a b")]
           "/v1/items" EmptyString [] (perm_swap _ _ _)).
Defined.

Lemma bodyless_BuildURL_without_query_witness :
  fst (WithoutBodyBuilder_BuildURL printedFloat sampleFields
         (decodeTable [(quietJson, quietBag)])
         {| WithoutBody_Logger := tt |} "/v1/items" quietJson)
  = ("/v1/items", None).
Proof.
  exact (eq_trans
           (proj1 (proj2 (bodyless_BuildURL_without_query printedFloat sampleFields
                            (decodeTable [(quietJson, quietBag)]) unit
                            {| WithoutBody_Logger := tt |} "/v1/items" quietJson
                            "/v1/items" quietBag eq_refl eq_refl eq_refl)))
           eq_refl).
Defined.

Lemma encodeUrl_drops_fragment_witness :
  encodeUrl "/v1/items#top?name=x" = encodeUrl "/v1/items".
Proof. exact (encodeUrl_drops_fragment "/v1/items" "top?name=x" eq_refl). Defined.

Lemma numeric_arrays_never_reach_the_query_witness :
  accessMap printedFloat sampleFields idsBag "/v1/items" EmptyString []
  = ["ids.1=%!s(float64=3)"; "ids.2=%!s(bool=true)"]
  /\ fst (WithoutBodyBuilder_BuildURL printedFloat sampleFields
            (decodeTable [(idsJson, idsBag)])
            {| WithoutBody_Logger := tt |} "/v1/items" idsJson)
     = ("/v1/items", None).
Proof.
  split; [reflexivity|].
  exact (proj1 (proj2 (proj2 (numeric_arrays_never_reach_the_query printedFloat sampleFields
                                (decodeTable [(idsJson, idsBag)]) unit
                                {| WithoutBody_Logger := tt |} "/v1/items" idsJson
                                "/v1/items" idsBag
                                eq_refl eq_refl eq_refl eq_refl eq_refl)))).
Defined.

Lemma replaceUrlWithPathParam_fills_template_witness :
  replaceUrlWithPathParam printedFloat
    "/v1/regions/{regionId}/instances/{instanceId}/peers/{regionId}" instanceBag
  = ("/v1/regions/cn-north-1/instances/i-1/peers/cn-north-1", None).
Proof.
  assert (Hr : fillableName printedFloat instanceBag "regionId").
  { split; [split; [discriminate | reflexivity]|].
    exists (VString "cn-north-1"). split; reflexivity. }
  assert (Hi : fillableName printedFloat instanceBag "instanceId").
  { split; [split; [discriminate | reflexivity]|].
    exists (VString "i-1"). split; reflexivity. }
  assert (Ht : Forall (fillable printedFloat instanceBag) instanceTemplate).
  { unfold instanceTemplate.
    repeat (apply Forall_cons; [first [exact Hr | exact Hi | reflexivity]|]).
    apply Forall_nil. }
  exact (proj2 (replaceUrlWithPathParam_fills_template printedFloat instanceBag
                  instanceTemplate Ht)).
Defined.

Lemma bodyless_query_reads_back_witness :
  fst (WithoutBodyBuilder_BuildURL printedFloat sampleFields
         (decodeTable [(searchJson, searchBag)])
         {| WithoutBody_Logger := tt |} "/v1/items" searchJson)
  = ("/v1/items?id=7&name=a+b", None)
  /\ url.ParseQuery "id=7&name=a+b" = [("id", ["7"]); ("name", ["a b"])].
Proof.
  assert (Hd : NoDup (map fst searchBag)).
  { apply NoDup_cons; [intros [H|[]]; discriminate H|].
    apply NoDup_cons; [intros []|apply NoDup_nil]. }
  assert (Hne : searchBag <> []) by discriminate.
  destruct (bodyless_query_reads_back printedFloat sampleFields
              (decodeTable [(searchJson, searchBag)]) unit
              {| WithoutBody_Logger := tt |} "/v1/items" searchJson "/v1/items" searchBag
              eq_refl eq_refl eq_refl eq_refl Hne Hd eq_refl) as (_ & Hback & _ & Hurl).
  split; [exact Hurl | exact Hback].
Defined.

Lemma WithBodyBuilder_BuildBody_other_fields_witness :
  exists body,
    fst (WithBodyBuilder_BuildBody sampleFields (decodeTable [(regionJson, regionBag)])
           sampleMarshal {| WithBody_Logger := tt |} regionJson)
    = (sampleMarshal body, None)
    /\ lookup "Version" body = None
    /\ lookup "name" body = Some (VString "x").
Proof.
  destruct (WithBodyBuilder_BuildBody_other_fields sampleFields
              (decodeTable [(regionJson, regionBag)]) sampleMarshal unit
              {| WithBody_Logger := tt |} regionJson regionBag eq_refl)
    as (body & Hb & Hl & _).
  exists body. split; [now rewrite Hb|]. split; [exact (Hl "Version") | exact (Hl "name")].
Defined.
